(** * OpJourney: per-operation stage timer and process-wide observer

    A shallow embedding of [src/mongo/db/op_journey.h] and
    [src/mongo/db/op_journey.cpp].

    - [Nanoseconds] and the atomic words are integers ([Z]).  The sum of
      durations that [capture] keeps for a stage is a 64-bit word in the
      program; the model adds without a bound, which is what the word does
      as long as the sum fits it ([fetchAndAdd_fits]), and the statements
      about that sum carry the condition that it fits.  The reading of
      [getElapsedTime()] is an explicit argument of every function that
      calls it.
    - [std::vector] is a list, indexed with stdpp's lookup and insert; an
      index outside the vector is a fault of its own ([OutOfRange]), since
      [operator[]] gives it no meaning.
    - [invariant(...)] and [MONGO_UNREACHABLE] end the process; they are
      faults too, and every function that can reach one returns an
      [Outcome]. *)

From stdpp Require Import base decidable option list numbers strings.
From Stdlib Require Import ZArith Lia Permutation.

Set Warnings "-register-all".

Local Open Scope Z_scope.

(** ** Faults *)

Inductive Fault : Type :=
  | InvariantFailure   (* invariant(expr) with expr false: fatal assertion *)
  | Unreachable        (* MONGO_UNREACHABLE *)
  | OutOfRange         (* vector index past the end *)
  | NullPointer        (* member access through the null get_ptr() *)
  | DivisionByZero     (* integer division with a zero divisor *)
  | Contended.         (* a compare-and-swap that lost against another writer *)

Inductive Outcome (A : Type) : Type :=
  | Ok (a : A)
  | Abort (f : Fault).

Arguments Ok {A} a.
Arguments Abort {A} f.

#[global] Instance Outcome_ret : MRet Outcome := fun _ a => Ok a.
#[global] Instance Outcome_bind : MBind Outcome := fun _ _ k m =>
  match m with
  | Ok a => k a
  | Abort f => Abort f
  end.

(** Modelled from the spec: the macro [invariant] (mongo/util/assert_util.h)
    is not in src.  The spec calls its failure a programming-error fault, a
    fatal assertion and not a recoverable error: [invariant(cond)] goes on
    when [cond] holds and ends the run otherwise. *)
Definition invariant (cond : bool) : Outcome unit :=
  if cond then Ok tt else Abort InvariantFailure.

(** [v[i]] on a [std::vector] *)
Definition at_index {A} (v : list A) (i : nat) : Outcome A :=
  match v !! i with
  | Some x => Ok x
  | None => Abort OutOfRange
  end.

(** [for (size_t stage = first; stage < first + count; stage++) body] *)
Fixpoint forStages {S : Type} (body : nat -> S -> Outcome S)
    (count : nat) (stage : nat) (s : S) : Outcome S :=
  match count with
  | O => Ok s
  | Datatypes.S count' => s' ← body stage s; forStages body count' (Datatypes.S stage) s'
  end.

(** ** Stages *)

(** Modelled from the spec: the declaration of seven of the enumerators is
    not in src.  [op_journey.h] declares [kRunning = 0], [kNetworkSync],
    [kReleased] and [kDestroyed]; [stageToString] in [op_journey.cpp] has a
    case label for seven more, between [kRunning] and [kNetworkSync].  The
    enumeration has all eleven, in the order of the switch, which is the
    order of the spec's table of names and of the header where it lists a
    name: [kRunning] is zero and [kDestroyed] is last. *)
Inductive Stage : Type :=
  | kRunning
  | kWaitForReadConcern
  | kWaitForWriteConcern
  | kMirroring
  | kCheckAuth
  | kExtractReadConcern
  | kAcquireDbLock
  | kComputeAndGossipOpTime
  | kNetworkSync
  | kReleased
  | kDestroyed.

#[global] Instance Stage_eq_dec : EqDecision Stage.
Proof. solve_decision. Defined.

(** [static_cast<size_t>(stage)] *)
Definition ordinal (s : Stage) : nat :=
  match s with
  | kRunning => 0
  | kWaitForReadConcern => 1
  | kWaitForWriteConcern => 2
  | kMirroring => 3
  | kCheckAuth => 4
  | kExtractReadConcern => 5
  | kAcquireDbLock => 6
  | kComputeAndGossipOpTime => 7
  | kNetworkSync => 8
  | kReleased => 9
  | kDestroyed => 10
  end%nat.

Definition enumerators : list Stage :=
  [kRunning; kWaitForReadConcern; kWaitForWriteConcern; kMirroring; kCheckAuth;
   kExtractReadConcern; kAcquireDbLock; kComputeAndGossipOpTime; kNetworkSync;
   kReleased; kDestroyed].

(** [stageToString].  An object of the unscoped enumeration [Stage] holds an
    integer, and [Observer::append] and [OpJourney::append] call the function
    on [static_cast<Stage>(stage)] for a [size_t] loop counter: the switch is
    over that integer.  The [default:] label is the last arm. *)
Definition stageToString (stage : nat) : Outcome string :=
  if decide (stage = ordinal kRunning) then Ok "running"%string
  else if decide (stage = ordinal kWaitForReadConcern) then Ok "waitForReadConcern"%string
  else if decide (stage = ordinal kWaitForWriteConcern) then Ok "waitForWriteConcern"%string
  else if decide (stage = ordinal kMirroring) then Ok "readMirroring"%string
  else if decide (stage = ordinal kCheckAuth) then Ok "checkAuthorization"%string
  else if decide (stage = ordinal kExtractReadConcern) then Ok "extractReadConcern"%string
  else if decide (stage = ordinal kAcquireDbLock) then Ok "acquireDbLock"%string
  else if decide (stage = ordinal kComputeAndGossipOpTime) then Ok "computeAndGossipOpTime"%string
  else if decide (stage = ordinal kNetworkSync) then Ok "egress"%string
  else if decide (stage = ordinal kReleased) then Ok "released"%string
  else if decide (stage = ordinal kDestroyed) then Ok "destroyed"%string
  else Abort Unreachable.

(** The name the switch gives next to each enumerator. *)
Definition stageName (s : Stage) : string :=
  match s with
  | kRunning => "running"
  | kWaitForReadConcern => "waitForReadConcern"
  | kWaitForWriteConcern => "waitForWriteConcern"
  | kMirroring => "readMirroring"
  | kCheckAuth => "checkAuthorization"
  | kExtractReadConcern => "extractReadConcern"
  | kAcquireDbLock => "acquireDbLock"
  | kComputeAndGossipOpTime => "computeAndGossipOpTime"
  | kNetworkSync => "egress"
  | kReleased => "released"
  | kDestroyed => "destroyed"
  end%string.

(** ** The journey of one operation *)

(** Modelled from the spec: [Nanoseconds] (mongo/util/duration.h) is not in
    src.  The spec's timestamps and durations are numbers of nanoseconds
    that are added, subtracted and compared; the model keeps the count, as
    an integer. *)
Abbreviation Nanoseconds := Z (only parsing).

Record State : Type := mkState {
  stage : Stage;
  entered : Nanoseconds
}.

(** [_opCtx] points back at the owner and [_killed], [_destroyed] are never
    read or written by [op_journey.cpp]; the three are left out. *)
Record OpJourney : Type := mkOpJourney {
  _created : Nanoseconds;
  _current : State;
  _profile : list Nanoseconds
}.

(** [OpJourney::OpJourney(opCtx, stage)]; [now] is what [getElapsedTime()]
    returns in the initialiser of [_created]. *)
Definition OpJourney_ctor (initial : Stage) (now : Nanoseconds) : OpJourney :=
  {| _created := now;
     _current := mkState initial now;
     _profile := replicate (ordinal kDestroyed) 0 |}.

(** [OpJourney::enterStage(stage)], with [newStage] for the argument; [now]
    is what [getElapsedTime()] returns if the call gets as far as reading
    the clock.  [std::exchange] has stored the new stage by the time the two
    are compared, which changes nothing when they are equal. *)
Definition enterStage (newStage : Stage) (now : Nanoseconds) (j : OpJourney)
    : Outcome OpJourney :=
  let oldStage := j.(_current).(stage) in
  if decide (oldStage = newStage) then Ok j
  else
    spent ← at_index j.(_profile) (ordinal oldStage);
    Ok {| _created := j.(_created);
          _current := mkState newStage now;
          _profile := <[ordinal oldStage := spent + (now - j.(_current).(entered))]>
                        j.(_profile) |}.

(** A run of [enterStage] calls, each with the clock reading it meets. *)
Fixpoint enterStages (calls : list (Stage * Nanoseconds)) (j : OpJourney)
    : Outcome OpJourney :=
  match calls with
  | [] => Ok j
  | (s, now) :: rest => j' ← enterStage s now j; enterStages rest j'
  end.

(** ** Structured output *)

(** Modelled from the spec: the values of [BSON(...)], [Duration::toBSON]
    and the arguments of [BSONObjBuilder::append] (mongo/bson,
    mongo/util/duration.h) are not in src.  The spec asks for nested objects
    and scalar and duration values; [toBSON] of a duration is a value of its
    own kind. *)
Inductive BSONValue : Type :=
  | BDuration (d : Nanoseconds)
  | BLong (n : Z)
  | BBool (b : bool)
  | BObj (fields : list (string * BSONValue)).

(** Modelled from the spec: [BSONObjBuilder] (mongo/bson/bsonobjbuilder.h)
    is not in src.  The spec asks for a key/value document builder: a
    builder is the list of the fields appended so far, in order. *)
Abbreviation BSONObjBuilder := (list (string * BSONValue)) (only parsing).

(** Modelled from the spec: [BSONObjBuilder::append] is not in src;
    [bob.append(name, value)] puts the field after the ones already
    there. *)
Definition bob_append (name : string) (value : BSONValue) (bob : BSONObjBuilder)
    : BSONObjBuilder :=
  bob ++ [(name, value)].

(** One round of the loop in [OpJourney::append]; the state is the builder
    and the local [sum]. *)
Definition appendStage (j : OpJourney) (stage : nat)
    (acc : BSONObjBuilder * Nanoseconds) : Outcome (BSONObjBuilder * Nanoseconds) :=
  let '(bob, sum) := acc in
  spent ← at_index j.(_profile) stage;
  if decide (spent = 0) then Ok (bob, sum)
  else
    name ← stageToString stage;
    Ok (bob_append name (BDuration spent) bob, sum + spent).

(** [OpJourney::append]; [now] is the reading of [getElapsedTime()]. *)
Definition OpJourney_append (now : Nanoseconds) (j : OpJourney) (bob : BSONObjBuilder)
    : Outcome BSONObjBuilder :=
  '(bob, sum) ← forStages (appendStage j) (length j.(_profile)) 0%nat (bob, 0);
  let total := now - j.(_created) in
  Ok (bob_append "other" (BDuration (total - sum)) bob).

(** The ["other"] field of a rendered journey. *)
Definition other_of (bob : BSONObjBuilder) : option BSONValue :=
  snd <$> last bob.

(** ** Atomic words, as one thread sees them *)

(** Modelled from the spec: [AtomicWord] (mongo/platform/atomic_word.h) is
    not in src.  The spec's counters are independent atomics that are
    loaded, incremented, added to and compare-and-swapped; a word is the
    integer it holds. *)
Abbreviation AtomicWord := Z (only parsing).

(** Modelled from the spec: [AtomicWord::load] and [loadRelaxed], the value
    the word holds. *)
Definition load (w : AtomicWord) : Z := w.

(** Modelled from the spec: [AtomicWord::store], given by the word it
    leaves. *)
Definition store (v : Z) (_ : AtomicWord) : AtomicWord := v.

(** Modelled from the spec: [AtomicWord::fetchAndAdd], given by the word it
    leaves (the callers drop the value it returns): the sum, which is what a
    64-bit word holds as long as the sum fits it ([fetchAndAdd_fits]). *)
Definition fetchAndAdd (n : Z) (w : AtomicWord) : AtomicWord := w + n.

(** Modelled from the spec: [AtomicWord::compareAndSwap(&expected, desired)],
    given by its success flag, the value it leaves in [expected] and the
    word it leaves: the swap happens when the word holds [expected], and
    otherwise [expected] gets what the word holds. *)
Definition compareAndSwap (expected desired : Z) (w : AtomicWord)
    : bool * Z * AtomicWord :=
  if decide (w = expected) then (true, expected, desired) else (false, w, w).

(** Modelled from the spec: [Nanoseconds::min()] and [Nanoseconds::max()]
    (mongo/util/duration.h) are not in src.  They are the sentinels the
    constructor puts in [max] and [min] before any duration is recorded;
    the model takes the two ends of a signed 64-bit count.  Nothing proved
    below depends on the two values. *)
Definition Nanoseconds_min : Z := - 2 ^ 63.

(** Modelled from the spec: see [Nanoseconds_min]. *)
Definition Nanoseconds_max : Z := 2 ^ 63 - 1.

(** ** The observer *)

(** Modelled from the spec: the element type of [_summary] is not in src.
    [capture] and [append] use its members [ops] and [duration], the spec's
    [opsSeen] and [durationSum]. *)
Record Summary : Type := mkSummary {
  ops : AtomicWord;
  duration : AtomicWord
}.

(** Modelled from the spec: the declaration of [class OpJourney::Observer]
    is not in src (the header only names the class).  Its members are the
    ones the constructor, [capture] and [append] use: [_totalOps] and the
    vectors [_max], [_min] and [_summary], the spec's [totalOps], [max],
    [min] and per-phase pairs. *)
Record Observer : Type := mkObserver {
  _totalOps : AtomicWord;
  _max : list AtomicWord;
  _min : list AtomicWord;
  _summary : list Summary
}.

(** [Observer::Observer()]: three vectors of [kDestroyed] zeroed elements,
    then the loop that stores the two sentinels. *)
Definition Observer_ctor : Observer :=
  let size := ordinal kDestroyed in
  foldl (fun o stage =>
           {| _totalOps := o.(_totalOps);
              _max := alter (store Nanoseconds_min) stage o.(_max);
              _min := alter (store Nanoseconds_max) stage o.(_min);
              _summary := o.(_summary) |})
        {| _totalOps := 0;
           _max := replicate size 0;
           _min := replicate size 0;
           _summary := replicate size (mkSummary 0 0) |}
        (seq 0 size).

(** [do { max = w.load(); } while (durNanos > max && !w.compareAndSwap(&max, durNanos));]
    The loop goes round again only when the swap fails, which takes a write
    by another thread between the load and the swap: that arm is
    [Contended]. *)
Definition updateMax (durNanos : Z) (w : AtomicWord) : Outcome AtomicWord :=
  let max := load w in
  if decide (durNanos > max) then
    let '(swapped, _, w') := compareAndSwap max durNanos w in
    if swapped then Ok w' else Abort Contended
  else Ok w.

(** [do { min = w.load(); } while (durNanos < min && !w.compareAndSwap(&min, durNanos));] *)
Definition updateMin (durNanos : Z) (w : AtomicWord) : Outcome AtomicWord :=
  let min := load w in
  if decide (durNanos < min) then
    let '(swapped, _, w') := compareAndSwap min durNanos w in
    if swapped then Ok w' else Abort Contended
  else Ok w.

(** One round of the loop in [Observer::capture]. *)
Definition captureStage (journey : OpJourney) (stage : nat) (o : Observer)
    : Outcome Observer :=
  durNanos ← at_index journey.(_profile) stage;
  if decide (durNanos = 0) then Ok o
  else
    s ← at_index o.(_summary) stage;
    let s' := {| ops := fetchAndAdd 1 s.(ops);
                 duration := fetchAndAdd durNanos s.(duration) |} in
    mx ← at_index o.(_max) stage;
    mx' ← updateMax durNanos mx;
    mn ← at_index o.(_min) stage;
    mn' ← updateMin durNanos mn;
    Ok {| _totalOps := o.(_totalOps);
          _max := <[stage := mx']> o.(_max);
          _min := <[stage := mn']> o.(_min);
          _summary := <[stage := s']> o.(_summary) |}.

(** [Observer::capture] *)
Definition capture (journey : OpJourney) (o : Observer) : Outcome Observer :=
  _ ← invariant (bool_decide (journey.(_current).(stage) = kDestroyed));
  o' ← forStages (captureStage journey) (length o.(_summary)) 0%nat o;
  Ok {| _totalOps := fetchAndAdd 1 o'.(_totalOps);
        _max := o'.(_max);
        _min := o'.(_min);
        _summary := o'.(_summary) |}.

(** Journeys captured one after the other. *)
Fixpoint captureAll (journeys : list OpJourney) (o : Observer) : Outcome Observer :=
  match journeys with
  | [] => Ok o
  | j :: rest => o' ← capture j o; captureAll rest o'
  end.

(** The four numbers the observer keeps for one stage. *)
Record PhaseStats : Type := mkPhaseStats {
  opsSeen : Z;
  durationSum : Z;
  phaseMin : Z;
  phaseMax : Z
}.

Definition phase (o : Observer) (p : nat) : option PhaseStats :=
  s ← o.(_summary) !! p;
  mn ← o.(_min) !! p;
  mx ← o.(_max) !! p;
  Some {| opsSeen := load s.(ops); durationSum := load s.(duration);
          phaseMin := load mn; phaseMax := load mx |}.

(** [Observer::append] only loads, and it loads while other threads may be
    inside [capture]: two loads of one word need not agree.  [mem t] is the
    observer as it stands at load number [t].  Load 0 is the first load of
    [_totalOps]; round [stage] of the loop owns the five loads
    [slot stage 0 .. slot stage 4] ([ops], [_min], [_max], [duration],
    [ops] again); the closing load of [_totalOps] is [slot size 0].  With no
    other thread, [mem] is constant. *)
Definition slot (stage k : nat) : nat := (1 + 5 * stage + k)%nat.

(** [a / b] on [long long] *)
Definition divide (a b : Z) : Outcome Z :=
  if decide (b = 0) then Abort DivisionByZero else Ok (Z.quot a b).

(** One round of the loop in [Observer::append]. *)
Definition reportStage (mem : nat -> Observer) (stage : nat) (bob : BSONObjBuilder)
    : Outcome BSONObjBuilder :=
  s ← at_index (mem (slot stage 0)).(_summary) stage;
  if decide (load s.(ops) = 0) then Ok bob
  else
    mn ← at_index (mem (slot stage 1)).(_min) stage;
    mx ← at_index (mem (slot stage 2)).(_max) stage;
    sd ← at_index (mem (slot stage 3)).(_summary) stage;
    so ← at_index (mem (slot stage 4)).(_summary) stage;
    avg ← divide (load sd.(duration)) (load so.(ops));
    name ← stageToString stage;
    Ok (bob_append name
          (BObj [("min", BDuration (load mn)); ("max", BDuration (load mx));
                 ("avg", BDuration avg)])
          bob).

(** [Observer::append] *)
Definition Observer_append (mem : nat -> Observer) (bob : BSONObjBuilder)
    : Outcome BSONObjBuilder :=
  let ops := load (mem 0%nat).(_totalOps) in
  let size := length (mem 0%nat).(_summary) in
  bob ← forStages (reportStage mem) size 0%nat bob;
  let bob := bob_append "operations" (BLong ops) bob in
  Ok (bob_append "stable"
        (BBool (bool_decide (ops = load (mem (slot size 0)).(_totalOps)))) bob).

(** ** The operation and its decoration *)

(** Modelled from the spec: [Client] (mongo/db/client.h) is not in src.  The
    spec only compares the owner of an operation with the caller; a client
    is a number. *)
Abbreviation Client := nat (only parsing).

(** Modelled from the spec: [OperationContext] and the decoration
    [getOpJourney] declared on it are not in src.  The spec asks of an
    operation that it expose the identity of its owner and hold at most one
    optional journey: [getClient] is the owner, if any, and [getOpJourney]
    the [boost::optional<OpJourney>] of the decoration.  The calling thread
    is given to the functions below by [Client::getCurrent()], its current
    client, if any; the configuration flag [gEnableTrackingOpJourney]
    (op_journey_gen.h) is an argument. *)
Record OperationContext : Type := mkOperationContext {
  getClient : option Client;
  getOpJourney : option OpJourney
}.

(** [runsOnClientThread]; [current] is [Client::getCurrent()]. *)
Definition runsOnClientThread (current : option Client) (opCtx : OperationContext) : bool :=
  match opCtx.(getClient) with
  | None => true
  | Some client => bool_decide (current = Some client)
  end.

(** [OpJourney::isTrackingEnabled] *)
Definition isTrackingEnabled (gEnableTrackingOpJourney : bool) : bool :=
  gEnableTrackingOpJourney.

(** [OpJourney::enable]; [now] is the clock reading the constructor takes. *)
Definition enable (gEnableTrackingOpJourney : bool) (current : option Client)
    (now : Nanoseconds) (opCtx : OperationContext) : Outcome OperationContext :=
  if negb (isTrackingEnabled gEnableTrackingOpJourney) then Ok opCtx
  else
    _ ← invariant (runsOnClientThread current opCtx);
    _ ← invariant (negb (bool_decide (is_Some opCtx.(getOpJourney))));
    Ok {| getClient := opCtx.(getClient);
          getOpJourney := Some (OpJourney_ctor kRunning now) |}.

(** [OpJourney::get]: the pointer [get_ptr()] of the decoration, null when
    it is empty. *)
Definition get (current : option Client) (opCtx : OperationContext)
    : Outcome (option OpJourney) :=
  _ ← invariant (runsOnClientThread current opCtx);
  Ok opCtx.(getOpJourney).

(** [p->...] *)
Definition deref {A} (p : option A) : Outcome A :=
  match p with
  | Some a => Ok a
  | None => Abort NullPointer
  end.

(** [OpJourney::get(opCtx)->enterStage(stage)] *)
Definition get_enterStage (current : option Client) (newStage : Stage)
    (now : Nanoseconds) (opCtx : OperationContext) : Outcome OperationContext :=
  p ← get current opCtx;
  j ← deref p;
  j' ← enterStage newStage now j;
  Ok {| getClient := opCtx.(getClient); getOpJourney := Some j' |}.

(** The macro [OpJourneyStage(opCtx, stage)]. *)
Definition OpJourneyStage (gEnableTrackingOpJourney : bool) (current : option Client)
    (newStage : Stage) (now : Nanoseconds) (opCtx : OperationContext)
    : Outcome OperationContext :=
  if isTrackingEnabled gEnableTrackingOpJourney
  then get_enterStage current newStage now opCtx
  else Ok opCtx.

(** ** ScopedStage *)

(** [_opCtx] is the operation the guard was built on; the model hands that
    operation to the destructor. *)
Record ScopedStage : Type := mkScopedStage {
  _oldStage : Stage
}.

(** [ScopedStage::ScopedStage(opCtx, stage)] *)
Definition ScopedStage_ctor (current : option Client) (newStage : Stage)
    (now : Nanoseconds) (opCtx : OperationContext)
    : Outcome (ScopedStage * OperationContext) :=
  p ← get current opCtx;
  j ← deref p;
  let guard := {| _oldStage := j.(_current).(stage) |} in
  opCtx' ← get_enterStage current newStage now opCtx;
  Ok (guard, opCtx').

(** [ScopedStage::~ScopedStage()] *)
Definition ScopedStage_dtor (current : option Client) (guard : ScopedStage)
    (now : Nanoseconds) (opCtx : OperationContext) : Outcome OperationContext :=
  get_enterStage current guard.(_oldStage) now opCtx.

(** The macro [makeScopedOpJourney(opCtx, stage)]: a guard when tracking is
    on, the null pointer otherwise. *)
Definition makeScopedOpJourney (gEnableTrackingOpJourney : bool) (current : option Client)
    (newStage : Stage) (now : Nanoseconds) (opCtx : OperationContext)
    : Outcome (option ScopedStage * OperationContext) :=
  if isTrackingEnabled gEnableTrackingOpJourney
  then '(guard, opCtx') ← ScopedStage_ctor current newStage now opCtx;
       Ok (Some guard, opCtx')
  else Ok (None, opCtx).

(** What runs inside the scope of a guard: stage announcements, and the
    point where control leaves the scope early (a [return] or a throw),
    after which the rest of the body does not run. *)
Inductive Instr : Type :=
  | Announce (newStage : Stage) (now : Nanoseconds)
  | Leave.

Fixpoint runBody (current : option Client) (body : list Instr)
    (opCtx : OperationContext) : Outcome OperationContext :=
  match body with
  | [] => Ok opCtx
  | Announce s now :: rest =>
      opCtx' ← get_enterStage current s now opCtx; runBody current rest opCtx'
  | Leave :: _ => Ok opCtx
  end.

(** [{ ScopedStage guard(opCtx, stage); body }]: the destructor runs however
    the body is left. *)
Definition scoped (current : option Client) (newStage : Stage) (now : Nanoseconds)
    (body : list Instr) (nowExit : Nanoseconds) (opCtx : OperationContext)
    : Outcome OperationContext :=
  '(guard, opCtx1) ← ScopedStage_ctor current newStage now opCtx;
  opCtx2 ← runBody current body opCtx1;
  ScopedStage_dtor current guard nowExit opCtx2.

(** [registerOpJourneyObserver]: what the constructor action leaves in the
    decoration [getOpJourneyObserver] of a new service context. *)
Definition registerOpJourneyObserver (gEnableTrackingOpJourney : bool) : option Observer :=
  if isTrackingEnabled gEnableTrackingOpJourney then Some Observer_ctor else None.

(** [OpJourney::~OpJourney()]: [observer] is the decoration of the service
    context that [Observer::get] points at; the result is the observer after
    the capture and the document handed to the log. *)
Definition OpJourney_dtor (nowEnter nowAppend : Nanoseconds) (j : OpJourney)
    (observer : option Observer) : Outcome (OpJourney * Observer * BSONObjBuilder) :=
  j' ← enterStage kDestroyed nowEnter j;
  o ← deref observer;
  o' ← capture j' o;
  bob ← OpJourney_append nowAppend j' [];
  Ok (j', o', bob).

(** ** Vocabulary of the statements *)

Definition sumZ (l : list Z) : Z := foldr Z.add 0 l.

(** The profile has one bucket per stage below [kDestroyed], as the
    constructor makes it. *)
Definition wellSized (j : OpJourney) : Prop :=
  length j.(_profile) = ordinal kDestroyed.

(** The journey has been through [enterStage(kDestroyed)]. *)
Definition finalized (j : OpJourney) : Prop :=
  j.(_current).(stage) = kDestroyed.

(** Successive readings of the monotonic clock, starting after [t]. *)
Fixpoint clockOrdered (t : Nanoseconds) (calls : list (Stage * Nanoseconds)) : Prop :=
  match calls with
  | [] => True
  | (_, now) :: rest => t <= now /\ clockOrdered now rest
  end.

Definition lastReading (t : Nanoseconds) (calls : list (Stage * Nanoseconds)) : Nanoseconds :=
  foldl (fun _ c => snd c) t calls.

(** The three vectors of the observer have one slot per stage below
    [kDestroyed], as the constructor makes them. *)
Definition wellFormed (o : Observer) : Prop :=
  length o.(_summary) = ordinal kDestroyed /\
  length o.(_max) = ordinal kDestroyed /\
  length o.(_min) = ordinal kDestroyed.

(** The clock never ran backwards while the journey was timed. *)
Definition nonNegative (j : OpJourney) : Prop :=
  Forall (fun d => 0 <= d) j.(_profile).

(** What [capture] may be handed: a journey at the end of its life. *)
Definition capturable (j : OpJourney) : Prop :=
  finalized j /\ wellSized j.

(** The bounds that tie the four numbers of a stage together. *)
Definition coherent (total : Z) (st : PhaseStats) : Prop :=
  0 <= st.(opsSeen) <= total /\
  (st.(opsSeen) = 0 -> st.(durationSum) = 0) /\
  st.(opsSeen) * st.(phaseMin) <= st.(durationSum) <= st.(opsSeen) * st.(phaseMax).

Definition ObserverInv (o : Observer) : Prop :=
  wellFormed o /\
  forall p st, phase o p = Some st -> coherent (load o.(_totalOps)) st.

(** The summary as the spec words it: one entry per stage that has been
    seen, with its minimum, maximum and average. *)
Definition summaryEntry (o : Observer) (s : Stage) : BSONObjBuilder :=
  match phase o (ordinal s) with
  | Some st =>
      if decide (0 < st.(opsSeen)) then
        [(stageName s,
          BObj [("min", BDuration st.(phaseMin)); ("max", BDuration st.(phaseMax));
                ("avg", BDuration (Z.quot st.(durationSum) st.(opsSeen)))])]
      else []
  | None => []
  end.

Definition summaryEntries (o : Observer) : BSONObjBuilder :=
  flat_map (summaryEntry o) enumerators.

(** What every reachable journey satisfies: the profile keeps its size and
    adds up to the time between construction and the last stage change. *)
Definition accounted (created : Nanoseconds) (j : OpJourney) : Prop :=
  j.(_created) = created /\ wellSized j /\
  sumZ j.(_profile) = j.(_current).(entered) - created.

(** What one captured duration does to the numbers of its stage. *)
Definition absorb (d : Z) (st : PhaseStats) : PhaseStats :=
  if decide (d = 0) then st
  else {| opsSeen := st.(opsSeen) + 1;
          durationSum := st.(durationSum) + d;
          phaseMin := Z.min st.(phaseMin) d;
          phaseMax := Z.max st.(phaseMax) d |}.

(** The observer after two operations that spent 3 ms and 7 ms in
    [running] and nothing anywhere else. *)
Definition sampleObserver : Observer :=
  {| _totalOps := 2;
     _max := 7000000 :: replicate 9 Nanoseconds_min;
     _min := 3000000 :: replicate 9 Nanoseconds_max;
     _summary := mkSummary 2 10000000 :: replicate 9 (mkSummary 0 0) |}.

(** An announcement an ordinary caller may make: [kDestroyed] is for the
    destructor. *)
Definition ordinary (i : Instr) : Prop :=
  match i with
  | Announce newStage _ => newStage <> kDestroyed
  | Leave => True
  end.

(** The operation has a journey that is still alive, and the calling thread
    is the one that may touch it. *)
Definition tracked (current : option nat) (opCtx : OperationContext) : Prop :=
  runsOnClientThread current opCtx = true /\
  exists j, opCtx.(getOpJourney) = Some j /\ wellSized j /\
            j.(_current).(stage) <> kDestroyed.

(** ** The clock *)

(** [struct timespec], as [clock_gettime] fills it. *)
Record timespec : Type := mkTimespec {
  tv_sec : Z;
  tv_nsec : Z
}.

(** Modelled from the spec: [Seconds] and its conversion to [Nanoseconds]
    (mongo/util/duration.h) are not in src; the spec's durations are counts
    of nanoseconds, and a second is 10^9 of them. *)
Definition Seconds (s : Z) : Nanoseconds := s * 1000000000.

(** What a call of [getElapsedTime] comes to: a reading, or the fatal log
    entry of the given id, which ends the process. *)
Inductive Elapsed : Type :=
  | Reading (t : Nanoseconds)
  | FatalLog (id : Z).

(** [getElapsedTime].  [linux] is whether [__linux__] is defined; [ret] and
    [t] are what [clock_gettime(CLOCK_MONOTONIC, &t)] returns and stores. *)
Definition getElapsedTime (linux : bool) (ret : Z) (t : timespec) : Elapsed :=
  if linux then
    if decide (ret <> 0) then FatalLog 7777701
    else Reading (Seconds t.(tv_sec) + t.(tv_nsec))
  else Reading 0.

(** A [timespec] as the clock gives it. *)
Definition normalized (t : timespec) : Prop :=
  0 <= t.(tv_nsec) < 1000000000.

(** [t1] is not after [t2]. *)
Definition notAfter (t1 t2 : timespec) : Prop :=
  t1.(tv_sec) < t2.(tv_sec) \/
  (t1.(tv_sec) = t2.(tv_sec) /\ t1.(tv_nsec) <= t2.(tv_nsec)).

(** ** The two loops of [capture] with other writers at work

    Each element of [others] is one round of the loop: what the other
    threads do to the word before this thread loads it, and what they do
    between the load and the compare-and-swap.  When the list is used up
    the other threads are done and the loop runs as [updateMax] has it.
    The result is the word as the loop leaves it. *)

Fixpoint updateMaxAmid (others : list ((Z -> Z) * (Z -> Z))) (durNanos : Z)
    (w : AtomicWord) : Outcome AtomicWord :=
  match others with
  | [] => updateMax durNanos w
  | (before, between) :: rest =>
      let w := before w in
      let max := load w in
      if decide (durNanos > max) then
        let w := between w in
        let '(swapped, _, w') := compareAndSwap max durNanos w in
        if swapped then Ok w' else updateMaxAmid rest durNanos w'
      else Ok w
  end.

Fixpoint updateMinAmid (others : list ((Z -> Z) * (Z -> Z))) (durNanos : Z)
    (w : AtomicWord) : Outcome AtomicWord :=
  match others with
  | [] => updateMin durNanos w
  | (before, between) :: rest =>
      let w := before w in
      let min := load w in
      if decide (durNanos < min) then
        let w := between w in
        let '(swapped, _, w') := compareAndSwap min durNanos w in
        if swapped then Ok w' else updateMinAmid rest durNanos w'
      else Ok w
  end.

(** Other writers that run the same loop only ever raise a maximum and
    lower a minimum. *)
Definition raising (round : (Z -> Z) * (Z -> Z)) : Prop :=
  (forall x, x <= fst round x) /\ (forall x, x <= snd round x).

Definition lowering (round : (Z -> Z) * (Z -> Z)) : Prop :=
  (forall x, fst round x <= x) /\ (forall x, snd round x <= x).

(** ** Vocabulary of the further statements *)

(** The bucket of a stage, zero for [kDestroyed], which has none. *)
Definition bucket (j : OpJourney) (s : Stage) : Nanoseconds :=
  default 0 (j.(_profile) !! ordinal s).

(** The time a run of calls spends with [s] as the current stage, read off
    the calls alone: from [since], when [cur] was current, every call closes
    the stretch before it. *)
Fixpoint timeIn (s cur : Stage) (since : Nanoseconds)
    (calls : list (Stage * Nanoseconds)) : Nanoseconds :=
  match calls with
  | [] => 0
  | (next, now) :: rest =>
      (if decide (cur = s) then now - since else 0) + timeIn s next now rest
  end.

(** The stretch of the current stage that is still open at reading [now]. *)
Definition openIn (j : OpJourney) (now : Nanoseconds) (s : Stage) : Nanoseconds :=
  if decide (j.(_current).(stage) = s) then now - j.(_current).(entered) else 0.

(** The fields [OpJourney::append] is expected to print for the buckets:
    one per stage with a nonzero bucket, in the order of the stages. *)
Definition journeyEntry (j : OpJourney) (s : Stage) : list (string * BSONValue) :=
  match j.(_profile) !! ordinal s with
  | Some spent => if decide (spent = 0) then [] else [(stageName s, BDuration spent)]
  | None => []
  end.

Definition journeyEntries (j : OpJourney) : list (string * BSONValue) :=
  flat_map (journeyEntry j) enumerators.

(** The durations in the fields of a document, added up. *)
Definition durationsOf (bob : list (string * BSONValue)) : Z :=
  sumZ (flat_map (fun f => match snd f with BDuration d => [d] | _ => [] end) bob).

(** The nonzero durations a list of journeys has for stage [p], in the
    order of the list. *)
Definition durationsAt (p : nat) (journeys : list OpJourney) : list Z :=
  filter (fun d => d <> 0) (map (fun j => default 0 (j.(_profile) !! p)) journeys).

(** The integers a 64-bit word of the program can hold, between the two
    ends that the constructor of the observer stores. *)
Definition representable (z : Z) : Prop :=
  Nanoseconds_min <= z <= Nanoseconds_max.

(** What a 64-bit two's complement word keeps of an integer. *)
Definition wrap64 (z : Z) : Z := (z + 2 ^ 63) mod 2 ^ 64 - 2 ^ 63.

(** No sum of durations that a run of captures builds up for stage [p]
    leaves the word: the durations of the first [k] journeys add up to an
    integer the word can hold, for every [k]. *)
Definition sumsFit (p : nat) (journeys : list OpJourney) : Prop :=
  forall k, representable (sumZ (durationsAt p (take k journeys))).

(** A history of the observer, as [Observer::append] may meet it while
    captures go on: every state has the size the constructor gives, no
    count is negative and no count goes down as the loads go by. *)
Definition growing (mem : nat -> Observer) : Prop :=
  (forall t, wellFormed (mem t)) /\
  (forall t p sm, (mem t).(_summary) !! p = Some sm -> 0 <= sm.(ops)) /\
  (forall t t' p sm sm',
     (t <= t')%nat ->
     (mem t).(_summary) !! p = Some sm -> (mem t').(_summary) !! p = Some sm' ->
     sm.(ops) <= sm'.(ops)).

(** The observer with two operations that spent 3 ms and 7 ms in [running]
    after a third one that spent 2 ms in [running] and 1 ms in [egress]. *)
Definition sampleObserverLater : Observer :=
  {| _totalOps := 3;
     _max := 7000000 :: replicate 7 Nanoseconds_min ++ [1000000; Nanoseconds_min];
     _min := 2000000 :: replicate 7 Nanoseconds_max ++ [1000000; Nanoseconds_max];
     _summary := mkSummary 3 12000000 :: replicate 7 (mkSummary 0 0)
                 ++ [mkSummary 1 1000000; mkSummary 0 0] |}.

(** ** Generalities *)

Lemma bind_Ok {A B} (a : A) (k : A -> Outcome B) : (Ok a ≫= k) = k a.
Proof. reflexivity. Qed.

Lemma bind_Ok_inv {A B} (m : Outcome A) (k : A -> Outcome B) (b : B) :
  (m ≫= k) = Ok b -> exists a, m = Ok a /\ k a = Ok b.
Proof. destruct m as [a|f]; simpl; [eauto | discriminate]. Qed.

(** From [H : (m ≫= k) = Ok b] to some [x] with [m = Ok x] and
    [H : k x = Ok b]. *)
Ltac bind_inv H x :=
  let Hx := fresh "H" x in
  apply bind_Ok_inv in H as (x & Hx & H).

Lemma at_index_Ok {A} (v : list A) (i : nat) (x : A) :
  v !! i = Some x -> at_index v i = Ok x.
Proof. unfold at_index. now intros ->. Qed.

Lemma at_index_lt {A} (v : list A) (i : nat) :
  (i < length v)%nat -> exists x, v !! i = Some x /\ at_index v i = Ok x.
Proof.
  intros Hi. destruct (lookup_lt_is_Some_2 v i Hi) as [x Hx].
  exists x. split; [assumption | now apply at_index_Ok].
Qed.

Lemma ordinal_bound (s : Stage) : (ordinal s <= ordinal kDestroyed)%nat.
Proof. destruct s; simpl; lia. Qed.

Lemma ordinal_nonterminal (s : Stage) :
  s <> kDestroyed -> (ordinal s < ordinal kDestroyed)%nat.
Proof. destruct s; simpl; intros H; try lia; now contradiction H. Qed.

Lemma ordinal_inj (s s' : Stage) : ordinal s = ordinal s' -> s = s'.
Proof. destruct s, s'; simpl; intros H; try reflexivity; discriminate H. Qed.

Lemma stageToString_ordinal (s : Stage) : stageToString (ordinal s) = Ok (stageName s).
Proof. destruct s; reflexivity. Qed.

Lemma stageToString_lt (p : nat) :
  (p <= ordinal kDestroyed)%nat -> exists s, p = ordinal s /\ stageToString p = Ok (stageName s).
Proof.
  intros Hp. simpl in Hp.
  assert (Hs : exists s, p = ordinal s).
  { do 11 (destruct p as [|p]; [eexists; solve
      [ instantiate (1 := kRunning); reflexivity
      | instantiate (1 := kWaitForReadConcern); reflexivity
      | instantiate (1 := kWaitForWriteConcern); reflexivity
      | instantiate (1 := kMirroring); reflexivity
      | instantiate (1 := kCheckAuth); reflexivity
      | instantiate (1 := kExtractReadConcern); reflexivity
      | instantiate (1 := kAcquireDbLock); reflexivity
      | instantiate (1 := kComputeAndGossipOpTime); reflexivity
      | instantiate (1 := kNetworkSync); reflexivity
      | instantiate (1 := kReleased); reflexivity
      | instantiate (1 := kDestroyed); reflexivity ] |]).
    lia. }
  destruct Hs as [s ->]. exists s. split; [reflexivity | apply stageToString_ordinal].
Qed.

(** ** The journey *)

Lemma sumZ_app (l1 l2 : list Z) : sumZ (l1 ++ l2) = sumZ l1 + sumZ l2.
Proof. induction l1 as [|x l1 IH]; simpl; [reflexivity | rewrite IH; lia]. Qed.

Lemma sumZ_replicate_0 (n : nat) : sumZ (replicate n 0) = 0.
Proof. induction n as [|n IH]; simpl; [reflexivity | exact IH]. Qed.

Lemma sumZ_insert (l : list Z) (i : nat) (x y : Z) :
  l !! i = Some x -> sumZ (<[i := y]> l) = sumZ l - x + y.
Proof.
  revert i. induction l as [|a l IH]; intros [|i] H; simpl in *; try discriminate.
  - injection H as ->. lia.
  - rewrite (IH i H). lia.
Qed.

Lemma enterStage_same (j : OpJourney) (now : Nanoseconds) :
  enterStage j.(_current).(stage) now j = Ok j.
Proof. unfold enterStage. now rewrite decide_True. Qed.

Lemma enterStage_other (j : OpJourney) (newStage : Stage) (now spent : Nanoseconds) :
  j.(_current).(stage) <> newStage ->
  j.(_profile) !! ordinal j.(_current).(stage) = Some spent ->
  enterStage newStage now j =
    Ok {| _created := j.(_created);
          _current := mkState newStage now;
          _profile := <[ordinal j.(_current).(stage) := spent + (now - j.(_current).(entered))]>
                        j.(_profile) |}.
Proof.
  intros Hne Hlook. unfold enterStage.
  rewrite decide_False by assumption.
  now rewrite (at_index_Ok _ _ _ Hlook).
Qed.

Lemma enterStage_stage (j j' : OpJourney) (newStage : Stage) (now : Nanoseconds) :
  enterStage newStage now j = Ok j' -> j'.(_current).(stage) = newStage.
Proof.
  unfold enterStage. destruct (decide _) as [Heq|Hne].
  - intros [= <-]. exact Heq.
  - intros H. apply bind_Ok_inv in H as (spent & _ & [= <-]). reflexivity.
Qed.

Lemma alter_as_insert (f : Z -> Z) (l : list Z) (i : nat) (x : Z) :
  l !! i = Some x -> alter f i l = <[i := f x]> l.
Proof.
  revert i. induction l as [|a l IH]; intros [|i] H; simpl in *; try discriminate.
  - now injection H as ->.
  - f_equal. now apply IH.
Qed.

Lemma bucket_of_live (j : OpJourney) :
  wellSized j -> j.(_current).(stage) <> kDestroyed ->
  exists spent, j.(_profile) !! ordinal j.(_current).(stage) = Some spent.
Proof.
  intros Hsz Hlive. apply lookup_lt_is_Some_2.
  rewrite Hsz. now apply ordinal_nonterminal.
Qed.

(** C1. [enterStage(newStage)] leaves the journey as it is when [newStage]
    is the current stage; otherwise, on a journey whose current stage has a
    bucket, it adds [now - current.entered] to that bucket and makes
    [{newStage, now}] the current state.  A second [enterStage] of the same
    stage right after the first changes nothing more, whatever the clock
    says by then. *)
Theorem enterStage_spec (j : OpJourney) (newStage : Stage) (now : Nanoseconds) :
  (j.(_current).(stage) = newStage -> enterStage newStage now j = Ok j) /\
  (j.(_current).(stage) <> newStage ->
   j.(_current).(stage) <> kDestroyed -> wellSized j ->
   enterStage newStage now j =
     Ok {| _created := j.(_created);
           _current := {| stage := newStage; entered := now |};
           _profile := alter (fun spent => spent + (now - j.(_current).(entered)))
                             (ordinal j.(_current).(stage)) j.(_profile) |}) /\
  (forall now', (enterStage newStage now j ≫= enterStage newStage now')
                = enterStage newStage now j) /\
  (forall now' j1 j2,
     enterStage newStage now j = Ok j1 -> enterStage newStage now' j1 = Ok j2 ->
     j2 = j1 /\ sumZ j2.(_profile) = sumZ j1.(_profile)).
Proof.
  assert (Hagain : forall now' j1, enterStage newStage now j = Ok j1 ->
                                   enterStage newStage now' j1 = Ok j1).
  { intros now' j1 H1. apply enterStage_stage in H1. rewrite <- H1.
    apply enterStage_same. }
  repeat split.
  - intros <-. apply enterStage_same.
  - intros Hne Hlive Hsz.
    destruct (bucket_of_live j Hsz Hlive) as [spent Hspent].
    rewrite (enterStage_other j newStage now spent Hne Hspent).
    now rewrite (alter_as_insert _ _ _ _ Hspent).
  - intros now'. destruct (enterStage newStage now j) as [j1|f] eqn:H1; [|reflexivity].
    simpl. now apply Hagain.
  - specialize (Hagain now' j1 H). congruence.
  - specialize (Hagain now' j1 H). congruence.
Qed.

Lemma enterStage_spec_witness :
  enterStage kNetworkSync 110 (OpJourney_ctor kRunning 100) =
    Ok {| _created := 100;
          _current := {| stage := kNetworkSync; entered := 110 |};
          _profile := [10; 0; 0; 0; 0; 0; 0; 0; 0; 0] |}.
Proof.
  apply (proj1 (proj2 (enterStage_spec (OpJourney_ctor kRunning 100) kNetworkSync 110))).
  - discriminate.
  - discriminate.
  - reflexivity.
Defined.

Lemma OpJourney_ctor_accounted (initial : Stage) (now : Nanoseconds) :
  accounted now (OpJourney_ctor initial now).
Proof.
  repeat split; simpl.
  change (sumZ (replicate 10 0) = now - now). rewrite sumZ_replicate_0. lia.
Qed.

Lemma enterStage_accounted (created : Nanoseconds) (j j' : OpJourney)
    (newStage : Stage) (now : Nanoseconds) :
  accounted created j -> enterStage newStage now j = Ok j' -> accounted created j'.
Proof.
  intros (Hc & Hsz & Hsum) H. unfold enterStage in H.
  destruct (decide _) as [Heq|Hne].
  - injection H as <-. now repeat split.
  - apply bind_Ok_inv in H as (spent & Hat & [= <-]).
    unfold at_index in Hat.
    destruct (_profile j !! ordinal (stage (_current j))) as [x|] eqn:Hx; [|discriminate].
    injection Hat as ->.
    repeat split; simpl.
    + exact Hc.
    + unfold wellSized in *. simpl. now rewrite length_insert.
    + rewrite (sumZ_insert _ _ _ _ Hx). lia.
Qed.

Lemma enterStage_live (j : OpJourney) (newStage : Stage) (now : Nanoseconds) :
  wellSized j -> j.(_current).(stage) <> kDestroyed ->
  exists j', enterStage newStage now j = Ok j'.
Proof.
  intros Hsz Hlive. destruct (decide (j.(_current).(stage) = newStage)) as [<-|Hne].
  - exists j. apply enterStage_same.
  - destruct (bucket_of_live j Hsz Hlive) as [spent Hspent].
    eexists. apply enterStage_other; eassumption.
Qed.

Lemma enterStages_live (created : Nanoseconds) (calls : list (Stage * Nanoseconds))
    (j : OpJourney) :
  accounted created j -> j.(_current).(stage) <> kDestroyed ->
  Forall (fun c => fst c <> kDestroyed) calls ->
  exists j', enterStages calls j = Ok j' /\ accounted created j' /\
             j'.(_current).(stage) <> kDestroyed.
Proof.
  revert j. induction calls as [|[s now] calls IH]; intros j Hacc Hlive Hcalls.
  - exists j. split; [reflexivity | split; assumption].
  - inversion Hcalls as [|c cs Hs Hrest]; subst. simpl in Hs.
    destruct Hacc as (Hc & Hsz & Hsum).
    destruct (enterStage_live j s now Hsz Hlive) as [j1 H1].
    assert (Hacc1 : accounted created j1)
      by (eapply enterStage_accounted; [|exact H1]; now repeat split).
    assert (Hlive1 : j1.(_current).(stage) <> kDestroyed)
      by (rewrite (enterStage_stage _ _ _ _ H1); exact Hs).
    destruct (IH j1 Hacc1 Hlive1 Hrest) as (j' & Hrun & Hacc' & Hlive').
    exists j'. simpl. rewrite H1. simpl. split; [exact Hrun | split; assumption].
Qed.

Lemma forStages_S {S : Type} (body : nat -> S -> Outcome S) (count stage : nat) (s : S) :
  forStages body (Datatypes.S count) stage s
  = (body stage s ≫= forStages body count (Datatypes.S stage)).
Proof. reflexivity. Qed.

Lemma forStages_ext {S : Type} (body body' : nat -> S -> Outcome S) (count stage : nat)
    (s : S) :
  (forall i x, body i x = body' i x) ->
  forStages body count stage s = forStages body' count stage s.
Proof.
  intros Hext. revert stage s. induction count as [|count IH]; intros stage s.
  - reflexivity.
  - rewrite !forStages_S, Hext. destruct (body' stage s); [|reflexivity].
    rewrite !bind_Ok. apply IH.
Qed.

Lemma appendStage_at (j : OpJourney) (stage : nat) (bob : BSONObjBuilder)
    (sum spent : Nanoseconds) :
  j.(_profile) !! stage = Some spent ->
  appendStage j stage (bob, sum) =
    if decide (spent = 0) then Ok (bob, sum)
    else name ← stageToString stage;
         Ok (bob_append name (BDuration spent) bob, sum + spent).
Proof. intros H. unfold appendStage. now rewrite (at_index_Ok _ _ _ H). Qed.

(** The loop of [OpJourney::append] adds up the buckets it walks over, the
    empty ones included since they add nothing. *)
Lemma appendStage_loop (j : OpJourney) (count start : nat) (bob : BSONObjBuilder)
    (sum : Nanoseconds) :
  (start + count = length j.(_profile))%nat ->
  (length j.(_profile) <= ordinal kDestroyed)%nat ->
  exists fields,
    forStages (appendStage j) count start (bob, sum) =
      Ok (bob ++ fields, sum + sumZ (drop start j.(_profile))).
Proof.
  revert start bob sum. induction count as [|count IH]; intros start bob sum Hlen Hsz.
  - exists []. simpl. rewrite app_nil_r.
    rewrite drop_ge by lia. simpl. now rewrite Z.add_0_r.
  - assert (Hlt : (start < length j.(_profile))%nat) by lia.
    destruct (at_index_lt _ _ Hlt) as (spent & Hlook & Hat).
    rewrite (drop_S _ _ _ Hlook).
    rewrite forStages_S, (appendStage_at _ _ _ _ _ Hlook).
    destruct (decide (spent = 0)) as [->|Hnz].
    + rewrite bind_Ok.
      destruct (IH (S start) bob sum) as [fields Hf]; [lia | lia |].
      exists fields. rewrite Hf. reflexivity.
    + destruct (stageToString_lt start) as (s & _ & Hname); [lia|].
      rewrite Hname, !bind_Ok.
      destruct (IH (S start) (bob_append (stageName s) (BDuration spent) bob) (sum + spent))
        as [fields Hf]; [lia | lia |].
      exists ((stageName s, BDuration spent) :: fields). refine (eq_trans Hf _).
      unfold bob_append. rewrite <- app_assoc. simpl. do 2 f_equal; lia.
Qed.

Lemma OpJourney_append_other (now : Nanoseconds) (j : OpJourney) (bob : BSONObjBuilder) :
  wellSized j ->
  exists out,
    OpJourney_append now j bob = Ok out /\
    other_of out = Some (BDuration ((now - j.(_created)) - sumZ j.(_profile))).
Proof.
  intros Hsz. unfold OpJourney_append.
  destruct (appendStage_loop j (length j.(_profile)) 0 bob 0) as [fields Hf];
    [lia | rewrite Hsz; lia |].
  rewrite Hf. simpl. eexists. split; [reflexivity|].
  unfold other_of, bob_append. rewrite last_snoc. simpl.
  now rewrite Z.add_0_l.
Qed.

(** A journey that ordinary callers drive stays alive, and its buckets add
    up to the time between construction and the last stage change. *)
Lemma enterStages_accounted (initial : Stage) (created : Nanoseconds)
    (calls : list (Stage * Nanoseconds)) :
  initial <> kDestroyed ->
  Forall (fun c => fst c <> kDestroyed) calls ->
  exists j, enterStages calls (OpJourney_ctor initial created) = Ok j /\
            accounted created j /\ j.(_current).(stage) <> kDestroyed.
Proof.
  intros Hinit Hcalls.
  apply enterStages_live; [apply OpJourney_ctor_accounted | exact Hinit | exact Hcalls].
Qed.

(** ** The observer *)

Lemma updateMax_single (d : Z) (w : Z) : updateMax d w = Ok (Z.max w d).
Proof.
  unfold updateMax, compareAndSwap, load.
  destruct (decide (d > w)) as [Hgt|Hle].
  - rewrite decide_True by reflexivity. f_equal. lia.
  - f_equal. lia.
Qed.

Lemma updateMin_single (d : Z) (w : Z) : updateMin d w = Ok (Z.min w d).
Proof.
  unfold updateMin, compareAndSwap, load.
  destruct (decide (d < w)) as [Hlt|Hge].
  - rewrite decide_True by reflexivity. f_equal. lia.
  - f_equal. lia.
Qed.

Lemma phase_Some (o : Observer) (p : nat) (s : Summary) (mn mx : Z) :
  o.(_summary) !! p = Some s -> o.(_min) !! p = Some mn -> o.(_max) !! p = Some mx ->
  phase o p = Some {| opsSeen := s.(ops); durationSum := s.(duration);
                      phaseMin := mn; phaseMax := mx |}.
Proof. intros Hs Hmn Hmx. unfold phase. now rewrite Hs, Hmn, Hmx. Qed.

Lemma phase_Some_inv (o : Observer) (p : nat) (st : PhaseStats) :
  phase o p = Some st ->
  exists s, o.(_summary) !! p = Some s /\ o.(_min) !! p = Some st.(phaseMin) /\
            o.(_max) !! p = Some st.(phaseMax) /\
            s.(ops) = st.(opsSeen) /\ s.(duration) = st.(durationSum).
Proof.
  unfold phase. intros H.
  destruct (_summary o !! p) as [s|]; [|discriminate].
  destruct (_min o !! p) as [mn|]; [|discriminate].
  destruct (_max o !! p) as [mx|]; [|discriminate].
  injection H as <-. exists s. now repeat split.
Qed.

Lemma phase_lt (o : Observer) (p : nat) :
  wellFormed o -> (p < ordinal kDestroyed)%nat -> exists st, phase o p = Some st.
Proof.
  intros (Hs & Hmx & Hmn) Hp.
  destruct (lookup_lt_is_Some_2 o.(_summary) p) as [s Hls]; [lia|].
  destruct (lookup_lt_is_Some_2 o.(_max) p) as [mx Hlmx]; [lia|].
  destruct (lookup_lt_is_Some_2 o.(_min) p) as [mn Hlmn]; [lia|].
  eexists. apply phase_Some; eassumption.
Qed.

Lemma phase_ge (o : Observer) (p : nat) :
  wellFormed o -> (ordinal kDestroyed <= p)%nat -> phase o p = None.
Proof.
  intros (Hs & _ & _) Hp. unfold phase.
  now rewrite (lookup_ge_None_2 o.(_summary) p) by lia.
Qed.

(** Two observers with the same counters are the same observer. *)
Lemma Observer_ext (o o' : Observer) :
  wellFormed o -> wellFormed o' ->
  o.(_totalOps) = o'.(_totalOps) ->
  (forall p, phase o p = phase o' p) ->
  o = o'.
Proof.
  intros Hwf Hwf' Htot Hph.
  destruct o as [t mx mn sm], o' as [t' mx' mn' sm']. simpl in *. subst t'.
  assert (Hcmp : forall p, sm !! p = sm' !! p /\ mn !! p = mn' !! p /\ mx !! p = mx' !! p).
  { intros p. destruct (decide (p < ordinal kDestroyed)%nat) as [Hp|Hp].
    - destruct (phase_lt _ p Hwf Hp) as [st Hst].
      pose proof Hst as Hst'. rewrite Hph in Hst'.
      apply phase_Some_inv in Hst as (s & Hs & Hmn & Hmx & Hops & Hdur).
      apply phase_Some_inv in Hst' as (s' & Hs' & Hmn' & Hmx' & Hops' & Hdur').
      simpl in *. rewrite Hs, Hs', Hmn, Hmn', Hmx, Hmx'.
      repeat split. f_equal. destruct s, s'; simpl in *; congruence.
    - destruct Hwf as (H1 & H2 & H3), Hwf' as (H1' & H2' & H3'). simpl in *.
      rewrite !lookup_ge_None_2 by lia. now repeat split. }
  f_equal; apply list_eq; intros p; apply Hcmp.
Qed.

Lemma absorb_zero (st : PhaseStats) : absorb 0 st = st.
Proof. reflexivity. Qed.

Lemma absorb_nonzero (d : Z) (st : PhaseStats) :
  d <> 0 ->
  absorb d st = {| opsSeen := st.(opsSeen) + 1;
                   durationSum := st.(durationSum) + d;
                   phaseMin := Z.min st.(phaseMin) d;
                   phaseMax := Z.max st.(phaseMax) d |}.
Proof. intros Hd. unfold absorb. now rewrite decide_False. Qed.

(** One round of the loop of [capture] touches the numbers of its own stage
    and nothing else. *)
Lemma captureStage_spec (j : OpJourney) (stage : nat) (d : Z) (o : Observer) :
  wellFormed o -> j.(_profile) !! stage = Some d ->
  (stage < ordinal kDestroyed)%nat ->
  exists o', captureStage j stage o = Ok o' /\ wellFormed o' /\
             o'.(_totalOps) = o.(_totalOps) /\
             phase o' stage = absorb d <$> phase o stage /\
             forall p, p <> stage -> phase o' p = phase o p.
Proof.
  intros Hwf Hd Hlt. unfold captureStage.
  rewrite (at_index_Ok _ _ _ Hd), bind_Ok.
  destruct (decide (d = 0)) as [->|Hnz].
  - exists o. repeat split; try apply Hwf.
    rewrite (option_fmap_ext (absorb 0) id) by apply absorb_zero.
    now rewrite option_fmap_id.
  - destruct Hwf as (Hs & Hmx & Hmn).
    destruct (lookup_lt_is_Some_2 o.(_summary) stage) as [s Hls]; [lia|].
    destruct (lookup_lt_is_Some_2 o.(_max) stage) as [mx Hlmx]; [lia|].
    destruct (lookup_lt_is_Some_2 o.(_min) stage) as [mn Hlmn]; [lia|].
    rewrite (at_index_Ok _ _ _ Hls), bind_Ok.
    rewrite (at_index_Ok _ _ _ Hlmx), bind_Ok, updateMax_single, bind_Ok.
    rewrite (at_index_Ok _ _ _ Hlmn), bind_Ok, updateMin_single, bind_Ok.
    eexists. split; [reflexivity|]. repeat split; simpl.
    + now rewrite length_insert.
    + now rewrite length_insert.
    + now rewrite length_insert.
    + rewrite (phase_Some o stage s mn mx Hls Hlmn Hlmx). simpl.
      rewrite absorb_nonzero by assumption. simpl.
      unfold phase. simpl.
      rewrite !list_lookup_insert_eq by lia. reflexivity.
    + intros p Hp. unfold phase. simpl.
      now rewrite !list_lookup_insert_ne by congruence.
Qed.

Lemma captureStage_loop (j : OpJourney) (count start : nat) (o : Observer) :
  wellFormed o -> wellSized j ->
  (start + count <= ordinal kDestroyed)%nat ->
  exists o', forStages (captureStage j) count start o = Ok o' /\ wellFormed o' /\
             o'.(_totalOps) = o.(_totalOps) /\
             (forall p d, (start <= p < start + count)%nat ->
                          j.(_profile) !! p = Some d ->
                          phase o' p = absorb d <$> phase o p) /\
             (forall p, (p < start \/ start + count <= p)%nat -> phase o' p = phase o p).
Proof.
  revert start o. induction count as [|count IH]; intros start o Hwf Hsz Hle.
  - exists o. repeat split; try apply Hwf. intros p d Hp. lia.
  - destruct (lookup_lt_is_Some_2 j.(_profile) start) as [d Hd];
      [rewrite Hsz; lia|].
    destruct (captureStage_spec j start d o Hwf Hd) as (o1 & H1 & Hwf1 & Htot1 & Hat1 & Hoth1);
      [lia|].
    destruct (IH (S start) o1 Hwf1 Hsz) as (o' & H' & Hwf' & Htot' & Hin' & Hout'); [lia|].
    exists o'. rewrite forStages_S, H1, bind_Ok. split; [exact H'|].
    split; [exact Hwf'|]. split; [congruence|]. split.
    + intros p dp Hp Hdp. destruct (decide (p = start)) as [->|Hne].
      * rewrite Hout' by lia. rewrite Hat1. congruence.
      * rewrite (Hin' p dp) by (try lia; assumption). rewrite Hoth1 by assumption.
        reflexivity.
    + intros p Hp. rewrite Hout' by lia. apply Hoth1. lia.
Qed.

(** What a capture does, stage by stage. *)
Lemma capture_spec (j : OpJourney) (o : Observer) :
  capturable j -> wellFormed o ->
  exists o', capture j o = Ok o' /\ wellFormed o' /\
             o'.(_totalOps) = o.(_totalOps) + 1 /\
             (forall p d, j.(_profile) !! p = Some d ->
                          phase o' p = absorb d <$> phase o p) /\
             (forall p, (ordinal kDestroyed <= p)%nat -> phase o' p = phase o p).
Proof.
  intros (Hfin & Hsz) Hwf. unfold capture.
  unfold finalized in Hfin. rewrite Hfin. rewrite bool_decide_eq_true_2 by reflexivity.
  unfold invariant. rewrite bind_Ok.
  destruct (captureStage_loop j (length o.(_summary)) 0 o Hwf Hsz)
    as (o1 & H1 & Hwf1 & Htot1 & Hin1 & Hout1).
  { destruct Hwf as (-> & _). lia. }
  rewrite H1, bind_Ok. eexists. split; [reflexivity|].
  assert (Hlen : length o.(_summary) = ordinal kDestroyed) by apply Hwf.
  repeat split; simpl; try apply Hwf1.
  - unfold fetchAndAdd. now rewrite Htot1.
  - intros p d Hd.
    assert (Hp : (p < ordinal kDestroyed)%nat).
    { rewrite <- Hsz. eapply lookup_lt_Some. exact Hd. }
    change (phase o1 p = absorb d <$> phase o p).
    apply Hin1; [lia | exact Hd].
  - intros p Hp. change (phase o1 p = phase o p). apply Hout1. simpl in *. lia.
Qed.

(** ** Claims about the journey *)

Lemma enterStages_keep_accounted (created : Nanoseconds)
    (calls : list (Stage * Nanoseconds)) (j j' : OpJourney) :
  accounted created j -> enterStages calls j = Ok j' -> accounted created j'.
Proof.
  revert j. induction calls as [|[s now] calls IH]; intros j Hacc Hrun.
  - simpl in Hrun. now injection Hrun as <-.
  - cbn [enterStages] in Hrun. bind_inv Hrun j1.
    apply (IH j1); [|exact Hrun]. eapply enterStage_accounted; eassumption.
Qed.

(** Leaving [kDestroyed] indexes the profile one past its end. *)
Lemma enterStage_after_teardown (j : OpJourney) (newStage : Stage) (now : Nanoseconds) :
  wellSized j -> finalized j -> newStage <> kDestroyed ->
  enterStage newStage now j = Abort OutOfRange.
Proof.
  intros Hsz Hfin Hnew. unfold enterStage. unfold finalized in Hfin. rewrite Hfin.
  rewrite decide_False by congruence.
  unfold at_index. rewrite lookup_ge_None_2; [reflexivity|].
  rewrite Hsz. lia.
Qed.

(** With a clock that does not run backwards no bucket is negative. *)
Lemma enterStages_nonNegative (calls : list (Stage * Nanoseconds)) (t : Nanoseconds)
    (j j' : OpJourney) :
  nonNegative j -> j.(_current).(entered) <= t -> clockOrdered t calls ->
  enterStages calls j = Ok j' ->
  nonNegative j' /\ j'.(_current).(entered) <= lastReading t calls.
Proof.
  revert t j. induction calls as [|[s now] calls IH]; intros t j Hnn Hent Hclock Hrun.
  - simpl in Hrun. injection Hrun as <-. now split.
  - cbn [enterStages] in Hrun. apply bind_Ok_inv in Hrun as (j1 & H1 & Hrun).
    destruct Hclock as (Hnow & Hrest). cbn [lastReading foldl]. simpl snd.
    apply (IH now j1); [| |exact Hrest|exact Hrun].
    + unfold enterStage in H1. destruct (decide _).
      * now injection H1 as <-.
      * apply bind_Ok_inv in H1 as (spent & Hat & [= <-]).
        unfold nonNegative in *. simpl.
        unfold at_index in Hat.
        destruct (_profile j !! ordinal (stage (_current j))) as [x|] eqn:Hx;
          [|discriminate].
        injection Hat as ->.
        apply Forall_insert; [exact Hnn|].
        rewrite Forall_forall in Hnn.
        assert (0 <= spent) by (apply Hnn; eapply list_elem_of_lookup_2; exact Hx).
        lia.
    + unfold enterStage in H1. destruct (decide _).
      * injection H1 as <-. lia.
      * apply bind_Ok_inv in H1 as (spent & _ & [= <-]). simpl. lia.
Qed.

(** C2. However a journey was constructed, after any run of [enterStage]
    calls the buckets of the profile plus the time spent so far in the open
    stage add up to the time since construction, at any clock reading
    [now].  When the journey was constructed in, and taken through, stages
    other than [kDestroyed], every call returns, and at teardown the
    destructor enters [kDestroyed], captures, and renders ["other"] as
    [(now - created) - sum(profile)], which is not negative as long as the
    clock did not run backwards between the two readings of the
    destructor. *)
Theorem journey_accounts_for_elapsed_time (initial : Stage) (created : Nanoseconds)
    (calls : list (Stage * Nanoseconds)) :
  (forall j,
     enterStages calls (OpJourney_ctor initial created) = Ok j ->
     forall now,
       sumZ j.(_profile) + (now - j.(_current).(entered)) = now - created) /\
  (initial <> kDestroyed ->
   Forall (fun c => fst c <> kDestroyed) calls ->
   exists j,
     enterStages calls (OpJourney_ctor initial created) = Ok j /\
     forall nowEnter nowAppend o,
       wellFormed o -> nowEnter <= nowAppend ->
       exists jd o' bob,
         OpJourney_dtor nowEnter nowAppend j (Some o) = Ok (jd, o', bob) /\
         finalized jd /\
         (forall now,
            sumZ jd.(_profile) + (now - jd.(_current).(entered)) = now - created) /\
         other_of bob
           = Some (BDuration ((nowAppend - created) - sumZ jd.(_profile))) /\
         0 <= (nowAppend - created) - sumZ jd.(_profile)).
Proof.
  split.
  { intros j Hrun now.
    destruct (enterStages_keep_accounted created calls _ j
                (OpJourney_ctor_accounted initial created) Hrun) as (_ & _ & Hsum).
    lia. }
  intros Hinit Hcalls.
  destruct (enterStages_accounted initial created calls Hinit Hcalls)
    as (j & Hrun & Hacc & Hlive).
  exists j. split; [exact Hrun|].
  intros nowEnter nowAppend o Hwf Hclock.
  pose proof Hacc as (Hc & Hsz & Hsum).
  destruct (enterStage_live j kDestroyed nowEnter Hsz Hlive) as [jd Hd].
  pose proof (enterStage_accounted created j jd kDestroyed nowEnter Hacc Hd)
    as (Hcd & Hszd & Hsumd).
  pose proof (enterStage_stage _ _ _ _ Hd) as Hfin.
  assert (Hentered : jd.(_current).(entered) = nowEnter).
  { destruct (bucket_of_live j Hsz Hlive) as [spent Hspent].
    rewrite (enterStage_other j kDestroyed nowEnter spent Hlive Hspent) in Hd.
    now injection Hd as <-. }
  destruct (capture_spec jd o (conj Hfin Hszd) Hwf) as (o' & Hcap & _).
  destruct (OpJourney_append_other nowAppend jd [] Hszd) as (bob & Happ & Hother).
  exists jd, o', bob. unfold OpJourney_dtor.
  rewrite Hd, bind_Ok. simpl deref. rewrite bind_Ok, Hcap, bind_Ok, Happ, bind_Ok.
  split; [reflexivity|]. split; [exact Hfin|]. split; [intros now; lia|].
  split; [now rewrite Hother, Hcd | lia].
Qed.

Lemma journey_accounts_for_elapsed_time_witness :
  exists j,
    enterStages [(kNetworkSync, 110); (kReleased, 115)] (OpJourney_ctor kRunning 100)
      = Ok j /\
    forall nowEnter nowAppend o,
      wellFormed o -> nowEnter <= nowAppend ->
      exists jd o' bob,
        OpJourney_dtor nowEnter nowAppend j (Some o) = Ok (jd, o', bob) /\
        finalized jd /\
        (forall now,
           sumZ jd.(_profile) + (now - jd.(_current).(entered)) = now - 100) /\
        other_of bob = Some (BDuration ((nowAppend - 100) - sumZ jd.(_profile))) /\
        0 <= (nowAppend - 100) - sumZ jd.(_profile).
Proof.
  apply (proj2 (journey_accounts_for_elapsed_time kRunning 100
                  [(kNetworkSync, 110); (kReleased, 115)])).
  - discriminate.
  - repeat constructor; discriminate.
Defined.

(** ** Claims about the observer *)



(** C10. Capturing a finalized journey leaves the four numbers of every
    stage in which it spent no time as they were, and still raises
    [totalOps] by one; when the whole profile is zero no stage changes, so
    that [totalOps] ends strictly above the [opsSeen] of every stage it was
    not below before. *)
Theorem capture_zero_phase (j : OpJourney) (o : Observer) :
  capturable j -> wellFormed o ->
  exists o',
    capture j o = Ok o' /\
    load o'.(_totalOps) = load o.(_totalOps) + 1 /\
    (forall p, j.(_profile) !! p = Some 0 ->
       phase o' p = phase o p /\
       o'.(_summary) !! p = o.(_summary) !! p /\
       o'.(_min) !! p = o.(_min) !! p /\ o'.(_max) !! p = o.(_max) !! p) /\
    (Forall (fun d => d = 0) j.(_profile) ->
       o' = {| _totalOps := o.(_totalOps) + 1; _max := o.(_max);
               _min := o.(_min); _summary := o.(_summary) |} /\
       ((forall p st, phase o p = Some st -> st.(opsSeen) <= load o.(_totalOps)) ->
        forall p st, phase o' p = Some st -> st.(opsSeen) < load o'.(_totalOps))).
Proof.
  intros Hcap Hwf.
  destruct (capture_spec j o Hcap Hwf) as (o' & Hrun & Hwf' & Htot & Hin & Hout).
  exists o'. split; [exact Hrun|]. split; [exact Htot|].
  assert (Hzero : forall p, j.(_profile) !! p = Some 0 -> phase o' p = phase o p).
  { intros p Hp. rewrite (Hin p 0 Hp).
    rewrite (option_fmap_ext (absorb 0) id) by apply absorb_zero.
    apply option_fmap_id. }
  split.
  - intros p Hp. split; [now apply Hzero|].
    assert (Hlt : (p < ordinal kDestroyed)%nat).
    { destruct Hcap as (_ & Hsz). rewrite <- Hsz. eapply lookup_lt_Some. exact Hp. }
    destruct (phase_lt o p Hwf Hlt) as [st Hst].
    pose proof Hst as Hst'. rewrite <- (Hzero p Hp) in Hst'.
    apply phase_Some_inv in Hst as (s & Hs & Hmn & Hmx & Hops & Hdur).
    apply phase_Some_inv in Hst' as (s' & Hs' & Hmn' & Hmx' & Hops' & Hdur').
    rewrite Hs, Hs', Hmn, Hmn', Hmx, Hmx'. repeat split.
    f_equal. destruct s, s'; simpl in *; congruence.
  - intros Hall.
    assert (Hsame : forall p, phase o' p = phase o p).
    { intros p. destruct (j.(_profile) !! p) as [d|] eqn:Hd.
      - assert (d = 0) as ->.
        { rewrite Forall_forall in Hall. apply Hall.
          eapply list_elem_of_lookup_2. exact Hd. }
        now apply Hzero.
      - apply Hout. destruct Hcap as (_ & Hsz). rewrite <- Hsz.
        now apply lookup_ge_None_1. }
    split.
    + apply Observer_ext; [exact Hwf' | exact Hwf | exact Htot | exact Hsame].
    + intros Hle p st Hst. rewrite Hsame in Hst. specialize (Hle p st Hst).
      unfold load in *. lia.
Qed.

Lemma capture_zero_phase_witness :
  exists o',
    capture (OpJourney_ctor kDestroyed 0) Observer_ctor = Ok o' /\
    load o'.(_totalOps) = 1 /\
    o'.(_summary) = Observer_ctor.(_summary) /\
    forall p st, phase o' p = Some st -> st.(opsSeen) < load o'.(_totalOps).
Proof.
  destruct (capture_zero_phase (OpJourney_ctor kDestroyed 0) Observer_ctor)
    as (o' & Hrun & Htot & _ & Hall).
  - split; reflexivity.
  - repeat split; reflexivity.
  - destruct Hall as (Heq & Hlt); [repeat constructor|].
    exists o'. split; [exact Hrun|]. split; [exact Htot|].
    split; [now rewrite Heq|].
    apply Hlt. intros p st Hst.
    do 10 (destruct p as [|p]; [injection Hst as <-; simpl; lia|]).
    discriminate Hst.
Defined.

Lemma captureAll_spec (journeys : list OpJourney) (o : Observer) :
  Forall capturable journeys -> wellFormed o ->
  exists o', captureAll journeys o = Ok o' /\ wellFormed o' /\
             o'.(_totalOps) = o.(_totalOps) + Z.of_nat (length journeys).
Proof.
  revert o. induction journeys as [|j journeys IH]; intros o Hall Hwf.
  - exists o. simpl. repeat split; try apply Hwf. lia.
  - inversion Hall as [|x xs Hj Hrest]; subst.
    destruct (capture_spec j o Hj Hwf) as (o1 & H1 & Hwf1 & Htot1 & _).
    destruct (IH o1 Hrest Hwf1) as (o' & H' & Hwf' & Htot').
    exists o'. cbn [captureAll]. rewrite H1, bind_Ok.
    split; [exact H'|]. split; [exact Hwf'|].
    rewrite Htot', Htot1. cbn [length]. lia.
Qed.

Lemma Observer_ctor_wellFormed : wellFormed Observer_ctor.
Proof. repeat split; reflexivity. Qed.

Lemma Observer_ctor_phase (p : nat) (st : PhaseStats) :
  phase Observer_ctor p = Some st ->
  st = {| opsSeen := 0; durationSum := 0;
          phaseMin := Nanoseconds_max; phaseMax := Nanoseconds_min |}.
Proof.
  do 10 (destruct p as [|p]; [intros [= <-]; reflexivity|]).
  discriminate.
Qed.

Lemma absorb_coherent (total d : Z) (st : PhaseStats) :
  coherent total st -> coherent (total + 1) (absorb d st).
Proof.
  intros ((Hops0 & Hops1) & Hzero & Hlo & Hhi). unfold absorb.
  destruct (decide (d = 0)) as [->|Hnz].
  - repeat split; try assumption; lia.
  - unfold coherent. simpl.
    pose proof (Z.le_min_l st.(phaseMin) d) as Hm1.
    pose proof (Z.le_min_r st.(phaseMin) d) as Hm2.
    pose proof (Z.le_max_l st.(phaseMax) d) as HM1.
    pose proof (Z.le_max_r st.(phaseMax) d) as HM2.
    pose proof (Z.mul_le_mono_nonneg_l _ _ st.(opsSeen) Hops0 Hm1) as Hm3.
    pose proof (Z.mul_le_mono_nonneg_l _ _ st.(opsSeen) Hops0 HM1) as HM3.
    repeat split; lia.
Qed.

Lemma capture_ObserverInv (j : OpJourney) (o o' : Observer) :
  capturable j -> ObserverInv o -> capture j o = Ok o' -> ObserverInv o'.
Proof.
  intros Hcap (Hwf & Hinv) Hrun.
  destruct (capture_spec j o Hcap Hwf) as (o1 & Hrun1 & Hwf1 & Htot1 & Hin1 & Hout1).
  rewrite Hrun in Hrun1. injection Hrun1 as <-.
  split; [exact Hwf1|]. intros p st Hst. unfold load. rewrite Htot1.
  destruct (j.(_profile) !! p) as [d|] eqn:Hd.
  - rewrite (Hin1 p d Hd) in Hst.
    destruct (phase o p) as [st0|] eqn:Hst0; [|discriminate].
    injection Hst as <-. apply absorb_coherent. now apply (Hinv p).
  - assert (Hp : (ordinal kDestroyed <= p)%nat).
    { destruct Hcap as (_ & Hsz). rewrite <- Hsz. now apply lookup_ge_None_1. }
    rewrite (phase_ge o' p Hwf1 Hp) in Hst. discriminate.
Qed.

Lemma Observer_ctor_ObserverInv : ObserverInv Observer_ctor.
Proof.
  split; [apply Observer_ctor_wellFormed|].
  intros p st Hst. rewrite (Observer_ctor_phase p st Hst).
  unfold coherent, load. cbn [opsSeen durationSum phaseMin phaseMax].
  change (_totalOps Observer_ctor) with 0. lia.
Qed.

Lemma captureAll_ObserverInv (journeys : list OpJourney) (o o' : Observer) :
  Forall capturable journeys -> ObserverInv o ->
  captureAll journeys o = Ok o' -> ObserverInv o'.
Proof.
  revert o. induction journeys as [|j journeys IH]; intros o Hall Hinv Hrun.
  - simpl in Hrun. now injection Hrun as <-.
  - inversion Hall as [|x xs Hj Hrest]; subst.
    cbn [captureAll] in Hrun. apply bind_Ok_inv in Hrun as (o1 & H1 & Hrun).
    apply (IH o1 Hrest); [|exact Hrun].
    now apply (capture_ObserverInv j o o1).
Qed.


Lemma absorb_all (ds : list Z) (st : PhaseStats) :
  foldl (fun acc d => absorb d acc) st ds =
    {| opsSeen := st.(opsSeen) + Z.of_nat (length (filter (fun d => d <> 0) ds));
       durationSum := st.(durationSum) + sumZ (filter (fun d => d <> 0) ds);
       phaseMin := foldl Z.min st.(phaseMin) (filter (fun d => d <> 0) ds);
       phaseMax := foldl Z.max st.(phaseMax) (filter (fun d => d <> 0) ds) |}.
Proof.
  revert st. induction ds as [|d ds IH]; intros st.
  - simpl. destruct st; simpl. f_equal; lia.
  - cbn [foldl]. rewrite IH. destruct (decide (d = 0)) as [->|Hnz].
    + rewrite absorb_zero. rewrite filter_cons_False by (intros H; now apply H).
      reflexivity.
    + rewrite absorb_nonzero by exact Hnz. rewrite filter_cons_True by exact Hnz.
      cbn [opsSeen durationSum phaseMin phaseMax foldl length].
      unfold sumZ. cbn [foldr]. f_equal; lia.
Qed.

Lemma captureAll_phase (journeys : list OpJourney) (o o' : Observer) (p : nat) :
  Forall capturable journeys -> wellFormed o ->
  captureAll journeys o = Ok o' ->
  (p < ordinal kDestroyed)%nat ->
  phase o' p =
    (fun st => foldl (fun acc d => absorb d acc) st
                 (map (fun j => default 0 (j.(_profile) !! p)) journeys))
    <$> phase o p.
Proof.
  intros Hall Hwf Hrun Hp. revert o Hwf Hrun.
  induction Hall as [|j journeys Hj Hrest IH]; intros o Hwf Hrun.
  - simpl in Hrun. injection Hrun as <-. simpl.
    now destruct (phase o p).
  - cbn [captureAll] in Hrun. bind_inv Hrun o1.
    destruct (capture_spec j o Hj Hwf) as (o1' & Hrun1 & Hwf1 & _ & Hin & _).
    rewrite Ho1 in Hrun1. injection Hrun1 as <-.
    rewrite (IH o1 Hwf1 Hrun).
    destruct (lookup_lt_is_Some_2 j.(_profile) p) as [d Hd];
      [destruct Hj as (_ & ->); exact Hp|].
    rewrite (Hin p d Hd). cbn [map foldl]. rewrite Hd.
    now destruct (phase o p).
Qed.

(** The unbounded sum of the model is the sum of the 64-bit word whenever
    it fits the word. *)
Lemma fetchAndAdd_fits (n w : Z) :
  representable (w + n) -> wrap64 (w + n) = fetchAndAdd n w.
Proof.
  unfold representable, wrap64, fetchAndAdd, Nanoseconds_min, Nanoseconds_max.
  intros H. rewrite Z.mod_small by lia. lia.
Qed.

Lemma sumsFit_all (p : nat) (journeys : list OpJourney) :
  sumsFit p journeys -> representable (sumZ (durationsAt p journeys)).
Proof.
  intros H. specialize (H (length journeys)). now rewrite firstn_all in H.
Qed.


(** Journeys that a clock that does not run backwards has timed keep every
    partial sum between zero and the whole sum. *)
Lemma sumsFit_nonNegative (p : nat) (journeys : list OpJourney) :
  Forall nonNegative journeys ->
  sumZ (durationsAt p journeys) <= Nanoseconds_max ->
  sumsFit p journeys.
Proof.
  intros Hnn Hmax k.
  assert (Hsplit : sumZ (durationsAt p journeys)
                   = sumZ (durationsAt p (take k journeys))
                     + sumZ (durationsAt p (drop k journeys))).
  { rewrite <- (take_drop k journeys) at 1. unfold durationsAt.
    now rewrite map_app, filter_app, sumZ_app. }
  assert (Hpos : forall l, Forall nonNegative l -> 0 <= sumZ (durationsAt p l)).
  { intros l Hl. unfold durationsAt.
    induction Hl as [|j l Hj _ IH]; simpl; [lia|].
    destruct (decide (default 0 (j.(_profile) !! p) <> 0)) as [Hnz|Hz].
    - rewrite filter_cons_True by exact Hnz. simpl.
      destruct (j.(_profile) !! p) as [d|] eqn:Hd; simpl in *; [|lia].
      unfold nonNegative in Hj. rewrite Forall_forall in Hj.
      assert (0 <= d) by (apply Hj; eapply list_elem_of_lookup_2; exact Hd). lia.
    - rewrite filter_cons_False by exact Hz. exact IH. }
  pose proof (Hpos (take k journeys) ltac:(now apply Forall_take)).
  pose proof (Hpos (drop k journeys) ltac:(now apply Forall_drop)).
  unfold representable, Nanoseconds_min. lia.
Qed.






Lemma absorb_comm (d1 d2 : Z) (st : PhaseStats) :
  absorb d2 (absorb d1 st) = absorb d1 (absorb d2 st).
Proof.
  unfold absorb.
  destruct (decide (d1 = 0)), (decide (d2 = 0)); simpl; try reflexivity.
  f_equal; lia.
Qed.

(** Two captures in a row give the same observer in either order. *)
Lemma capture_comm (j1 j2 : OpJourney) (o : Observer) :
  capturable j1 -> capturable j2 -> wellFormed o ->
  (capture j1 o ≫= capture j2) = (capture j2 o ≫= capture j1).
Proof.
  intros Hc1 Hc2 Hwf.
  destruct (capture_spec j1 o Hc1 Hwf) as (o1 & H1 & Hwf1 & Htot1 & Hin1 & Hout1).
  destruct (capture_spec j2 o1 Hc2 Hwf1) as (o12 & H12 & Hwf12 & Htot12 & Hin12 & Hout12).
  destruct (capture_spec j2 o Hc2 Hwf) as (o2 & H2 & Hwf2 & Htot2 & Hin2 & Hout2).
  destruct (capture_spec j1 o2 Hc1 Hwf2) as (o21 & H21 & Hwf21 & Htot21 & Hin21 & Hout21).
  rewrite H1, H2, !bind_Ok, H12, H21. f_equal.
  apply Observer_ext; [exact Hwf12 | exact Hwf21 | lia |].
  intros p. destruct (decide (p < ordinal kDestroyed)%nat) as [Hp|Hp].
  - destruct (lookup_lt_is_Some_2 j1.(_profile) p) as [d1 Hd1];
      [destruct Hc1 as (_ & ->); exact Hp|].
    destruct (lookup_lt_is_Some_2 j2.(_profile) p) as [d2 Hd2];
      [destruct Hc2 as (_ & ->); exact Hp|].
    rewrite (Hin12 p d2 Hd2), (Hin1 p d1 Hd1), (Hin21 p d1 Hd1), (Hin2 p d2 Hd2).
    destruct (phase o p) as [st|]; simpl; [|reflexivity].
    f_equal. apply absorb_comm.
  - rewrite (phase_ge o12 p Hwf12), (phase_ge o21 p Hwf21) by lia. reflexivity.
Qed.

Lemma captureAll_Permutation (l1 l2 : list OpJourney) :
  Permutation l1 l2 ->
  forall o, Forall capturable l1 -> wellFormed o ->
            captureAll l1 o = captureAll l2 o.
Proof.
  induction 1 as [|j l1 l2 Hperm IH|j1 j2 l|l1 l2 l3 H12 IH12 H23 IH23];
    intros o Hall Hwf.
  - reflexivity.
  - inversion Hall as [|x xs Hj Hrest]; subst.
    destruct (capture_spec j o Hj Hwf) as (o1 & H1 & Hwf1 & _).
    cbn [captureAll]. rewrite H1, !bind_Ok. now apply IH.
  - inversion Hall as [|x xs Hj1 Hrest]; subst.
    inversion Hrest as [|x xs Hj2 Hrest']; subst.
    cbn [captureAll].
    pose proof (capture_comm j1 j2 o Hj2 Hj1 Hwf) as Hcomm.
    destruct (capture_spec j1 o Hj2 Hwf) as (o1 & H1 & Hwf1 & _).
    destruct (capture_spec j2 o Hj1 Hwf) as (o2 & H2 & Hwf2 & _).
    rewrite H1, H2, !bind_Ok in *.
    destruct (capture_spec j2 o1 Hj1 Hwf1) as (o12 & H12 & _).
    destruct (capture_spec j1 o2 Hj2 Hwf2) as (o21 & H21 & _).
    rewrite H12, H21 in *. rewrite !bind_Ok. congruence.
  - rewrite (IH12 o Hall Hwf). apply IH23; [|exact Hwf].
    eapply Permutation_Forall; eassumption.
Qed.

(** C6. Capturing the same finalized journeys one at a time in any order
    gives the same observer, hence the same [opsSeen], [durationSum], [min]
    and [max] for every stage, with [totalOps] raised by the number of
    journeys; from a fresh observer [totalOps] ends as that number. *)
Theorem capture_order_independent (l1 l2 : list OpJourney) :
  Permutation l1 l2 -> Forall capturable l1 ->
  (forall o, wellFormed o ->
     exists o',
       captureAll l1 o = Ok o' /\ captureAll l2 o = Ok o' /\
       load o'.(_totalOps) = load o.(_totalOps) + Z.of_nat (length l1)) /\
  (exists o',
     captureAll l1 Observer_ctor = Ok o' /\ captureAll l2 Observer_ctor = Ok o' /\
     load o'.(_totalOps) = Z.of_nat (length l1) /\
     load o'.(_totalOps) = Z.of_nat (length l2)).
Proof.
  intros Hperm Hall.
  assert (Hgen : forall o, wellFormed o ->
            exists o', captureAll l1 o = Ok o' /\ captureAll l2 o = Ok o' /\
                       o'.(_totalOps) = o.(_totalOps) + Z.of_nat (length l1)).
  { intros o Hwf.
    destruct (captureAll_spec l1 o Hall Hwf) as (o' & Hrun & _ & Htot).
    exists o'. split; [exact Hrun|]. split; [|exact Htot].
    rewrite <- (captureAll_Permutation l1 l2 Hperm o Hall Hwf). exact Hrun. }
  split.
  - intros o Hwf. destruct (Hgen o Hwf) as (o' & H1 & H2 & Htot).
    exists o'. unfold load. now repeat split.
  - destruct (Hgen Observer_ctor Observer_ctor_wellFormed) as (o' & H1 & H2 & Htot).
    exists o'. unfold load. split; [exact H1|]. split; [exact H2|].
    rewrite Htot. rewrite <- (Permutation_length Hperm). now split.
Qed.

Lemma capture_order_independent_witness :
  exists o',
    captureAll [ {| _created := 0; _current := mkState kDestroyed 7;
                    _profile := [7; 0; 0; 0; 0; 0; 0; 0; 0; 0] |};
                 {| _created := 0; _current := mkState kDestroyed 3;
                    _profile := [3; 0; 0; 0; 0; 0; 0; 0; 4; 0] |} ] Observer_ctor = Ok o' /\
    captureAll [ {| _created := 0; _current := mkState kDestroyed 3;
                    _profile := [3; 0; 0; 0; 0; 0; 0; 0; 4; 0] |};
                 {| _created := 0; _current := mkState kDestroyed 7;
                    _profile := [7; 0; 0; 0; 0; 0; 0; 0; 0; 0] |} ] Observer_ctor = Ok o' /\
    load o'.(_totalOps) = 2 /\ load o'.(_totalOps) = 2.
Proof.
  apply (proj2 (capture_order_independent
           [ {| _created := 0; _current := mkState kDestroyed 7;
                _profile := [7; 0; 0; 0; 0; 0; 0; 0; 0; 0] |};
             {| _created := 0; _current := mkState kDestroyed 3;
                _profile := [3; 0; 0; 0; 0; 0; 0; 0; 4; 0] |} ]
           [ {| _created := 0; _current := mkState kDestroyed 3;
                _profile := [3; 0; 0; 0; 0; 0; 0; 0; 4; 0] |};
             {| _created := 0; _current := mkState kDestroyed 7;
                _profile := [7; 0; 0; 0; 0; 0; 0; 0; 0; 0] |} ]
           (perm_swap _ _ _)
           ltac:(repeat constructor))).
Defined.

(** ** Claims about the stage names *)


(** The arm after the case labels, [default: MONGO_UNREACHABLE], is what is
    left for the integers above [kDestroyed], which are no enumerators and
    which the two [append] functions, with their loops below [kDestroyed],
    do not pass. *)
Lemma stageToString_above_kDestroyed (n : nat) :
  stageToString (ordinal kDestroyed + 1 + n) = Abort Unreachable.
Proof.
  unfold stageToString.
  repeat (rewrite decide_False by (simpl; lia)). reflexivity.
Qed.

(** ** Claims about enabling *)

(** C9. With tracking on, [enable] on an operation that already has a
    journey fails an [invariant] (a fatal assertion), whatever thread calls
    it; an [enable] that returns found no journey and leaves exactly the
    one it constructed, in stage [kRunning] with an empty profile; and
    after an [enable] that returned, a second [enable] on the same
    operation is fatal. *)
Theorem enable_once (current : option nat) (now : Nanoseconds) (opCtx : OperationContext) :
  (is_Some opCtx.(getOpJourney) ->
   enable true current now opCtx = Abort InvariantFailure) /\
  (forall opCtx',
     enable true current now opCtx = Ok opCtx' ->
     opCtx.(getOpJourney) = None /\
     opCtx'.(getClient) = opCtx.(getClient) /\
     opCtx'.(getOpJourney) =
       Some {| _created := now;
               _current := {| stage := kRunning; entered := now |};
               _profile := replicate (ordinal kDestroyed) 0 |} /\
     forall current' now',
       enable true current' now' opCtx' = Abort InvariantFailure) /\
  (runsOnClientThread current opCtx = true -> opCtx.(getOpJourney) = None ->
   exists opCtx', enable true current now opCtx = Ok opCtx').
Proof.
  assert (Hfatal : forall current0 now0 c, is_Some c.(getOpJourney) ->
                     enable true current0 now0 c = Abort InvariantFailure).
  { intros current0 now0 c Hsome. unfold enable, isTrackingEnabled. simpl negb. cbv iota.
    destruct (runsOnClientThread current0 c); simpl; [|reflexivity].
    now rewrite bool_decide_eq_true_2. }
  split; [apply Hfatal|]. split.
  - intros opCtx' H. unfold enable, isTrackingEnabled in H. simpl negb in H. cbv iota in H.
    destruct (runsOnClientThread current opCtx); simpl in H; [|discriminate].
    destruct (bool_decide (is_Some (getOpJourney opCtx))) eqn:Hdec; simpl in H;
      [discriminate|].
    injection H as <-. apply bool_decide_eq_false_1 in Hdec.
    split; [now apply eq_None_not_Some|]. split; [reflexivity|]. split; [reflexivity|].
    intros current' now'. apply Hfatal. simpl. eauto.
  - intros Hthread Hnone. unfold enable, isTrackingEnabled. simpl negb. cbv iota.
    rewrite Hthread, Hnone. simpl. eauto.
Qed.

Lemma enable_once_witness :
  enable true (Some 1%nat) 105
    {| getClient := Some 1%nat; getOpJourney := Some (OpJourney_ctor kRunning 100) |}
    = Abort InvariantFailure /\
  exists opCtx',
    enable true (Some 1%nat) 100
      {| getClient := Some 1%nat; getOpJourney := None |} = Ok opCtx'.
Proof.
  split.
  - apply (proj1 (enable_once (Some 1%nat) 105
                    {| getClient := Some 1%nat;
                       getOpJourney := Some (OpJourney_ctor kRunning 100) |})).
    simpl. eauto.
  - apply (proj2 (proj2 (enable_once (Some 1%nat) 100
                           {| getClient := Some 1%nat; getOpJourney := None |}))).
    + reflexivity.
    + reflexivity.
Defined.

(** ** Claims about the scope guard *)

Lemma enterStage_wellSized (j j' : OpJourney) (newStage : Stage) (now : Nanoseconds) :
  wellSized j -> enterStage newStage now j = Ok j' -> wellSized j'.
Proof.
  intros Hsz H. unfold enterStage in H. destruct (decide _).
  - now injection H as <-.
  - apply bind_Ok_inv in H as (spent & _ & [= <-]).
    unfold wellSized in *. simpl. now rewrite length_insert.
Qed.

Lemma get_enterStage_tracked (current : option nat) (newStage : Stage)
    (now : Nanoseconds) (opCtx : OperationContext) (j : OpJourney) :
  runsOnClientThread current opCtx = true ->
  opCtx.(getOpJourney) = Some j -> wellSized j ->
  j.(_current).(stage) <> kDestroyed ->
  exists j', enterStage newStage now j = Ok j' /\
             get_enterStage current newStage now opCtx =
               Ok {| getClient := opCtx.(getClient); getOpJourney := Some j' |} /\
             wellSized j' /\ j'.(_current).(stage) = newStage.
Proof.
  intros Hthread Hj Hsz Hlive.
  destruct (enterStage_live j newStage now Hsz Hlive) as [j' H'].
  exists j'. split; [exact H'|]. split.
  - unfold get_enterStage, get. rewrite Hthread. simpl. rewrite Hj. simpl.
    now rewrite H'.
  - split; [eapply enterStage_wellSized; eassumption|].
    eapply enterStage_stage; eassumption.
Qed.

Lemma runBody_tracked (current : option nat) (body : list Instr) (opCtx : OperationContext) :
  tracked current opCtx -> Forall ordinary body ->
  exists opCtx', runBody current body opCtx = Ok opCtx' /\ tracked current opCtx'.
Proof.
  revert opCtx. induction body as [|i body IH]; intros opCtx Htr Hbody.
  - exists opCtx. split; [reflexivity | exact Htr].
  - inversion Hbody as [|x xs Hi Hrest]; subst.
    destruct i as [s now|].
    + destruct Htr as (Hthread & j & Hj & Hsz & Hlive).
      destruct (get_enterStage_tracked current s now opCtx j Hthread Hj Hsz Hlive)
        as (j' & _ & Hstep & Hsz' & Hstage').
      cbn [runBody]. rewrite Hstep, bind_Ok. apply IH; [|exact Hrest].
      split; [exact Hthread|]. exists j'. simpl.
      split; [reflexivity|]. split; [exact Hsz'|]. rewrite Hstage'. exact Hi.
    + exists opCtx. split; [reflexivity | exact Htr].
Qed.

(** C7. On a live journey, a guard for a stage other than [kDestroyed]
    records the stage that is current when it is built and enters its own;
    however the body is left, its destructor runs and enters the recorded
    stage again, so that the stage after the scope is the stage before
    it. *)
Theorem scoped_restores_stage (current : option nat) (newStage : Stage)
    (now nowExit : Nanoseconds) (body : list Instr)
    (opCtx : OperationContext) (j : OpJourney) :
  runsOnClientThread current opCtx = true ->
  opCtx.(getOpJourney) = Some j -> wellSized j ->
  j.(_current).(stage) <> kDestroyed -> newStage <> kDestroyed ->
  Forall ordinary body ->
  exists guard opCtx1 j1 opCtx2 opCtx3 j3,
    ScopedStage_ctor current newStage now opCtx = Ok (guard, opCtx1) /\
    guard.(_oldStage) = j.(_current).(stage) /\
    opCtx1.(getOpJourney) = Some j1 /\ j1.(_current).(stage) = newStage /\
    runBody current body opCtx1 = Ok opCtx2 /\
    ScopedStage_dtor current guard nowExit opCtx2 = Ok opCtx3 /\
    scoped current newStage now body nowExit opCtx = Ok opCtx3 /\
    opCtx3.(getOpJourney) = Some j3 /\
    j3.(_current).(stage) = j.(_current).(stage).
Proof.
  intros Hthread Hj Hsz Hlive Hnew Hbody.
  destruct (get_enterStage_tracked current newStage now opCtx j Hthread Hj Hsz Hlive)
    as (j1 & _ & Hstep1 & Hsz1 & Hstage1).
  set (opCtx1 := {| getClient := opCtx.(getClient); getOpJourney := Some j1 |}) in *.
  assert (Hctor : ScopedStage_ctor current newStage now opCtx
                  = Ok ({| _oldStage := j.(_current).(stage) |}, opCtx1)).
  { unfold ScopedStage_ctor, get. rewrite Hthread. simpl. rewrite Hj. simpl.
    now rewrite Hstep1. }
  assert (Htr1 : tracked current opCtx1).
  { split; [exact Hthread|]. exists j1. simpl.
    split; [reflexivity|]. split; [exact Hsz1|]. now rewrite Hstage1. }
  destruct (runBody_tracked current body opCtx1 Htr1 Hbody)
    as (opCtx2 & Hrun & Hthread2 & j2 & Hj2 & Hsz2 & Hlive2).
  destruct (get_enterStage_tracked current j.(_current).(stage) nowExit opCtx2 j2
              Hthread2 Hj2 Hsz2 Hlive2) as (j3 & _ & Hstep3 & _ & Hstage3).
  eexists _, opCtx1, j1, opCtx2, _, j3.
  split; [exact Hctor|]. split; [reflexivity|]. split; [reflexivity|].
  split; [exact Hstage1|]. split; [exact Hrun|].
  split; [exact Hstep3|]. split.
  - unfold scoped. rewrite Hctor, bind_Ok, Hrun, bind_Ok. exact Hstep3.
  - split; [reflexivity | exact Hstage3].
Qed.

Lemma scoped_restores_stage_witness :
  exists guard opCtx1 j1 opCtx2 opCtx3 j3,
    ScopedStage_ctor (Some 1%nat) kAcquireDbLock 110
      {| getClient := Some 1%nat; getOpJourney := Some (OpJourney_ctor kRunning 100) |}
      = Ok (guard, opCtx1) /\
    guard.(_oldStage) = kRunning /\
    opCtx1.(getOpJourney) = Some j1 /\ j1.(_current).(stage) = kAcquireDbLock /\
    runBody (Some 1%nat) [Announce kNetworkSync 115; Leave; Announce kReleased 118] opCtx1
      = Ok opCtx2 /\
    ScopedStage_dtor (Some 1%nat) guard 120 opCtx2 = Ok opCtx3 /\
    scoped (Some 1%nat) kAcquireDbLock 110
      [Announce kNetworkSync 115; Leave; Announce kReleased 118] 120
      {| getClient := Some 1%nat; getOpJourney := Some (OpJourney_ctor kRunning 100) |}
      = Ok opCtx3 /\
    opCtx3.(getOpJourney) = Some j3 /\
    j3.(_current).(stage) = kRunning.
Proof.
  apply (scoped_restores_stage (Some 1%nat) kAcquireDbLock 110 120
           [Announce kNetworkSync 115; Leave; Announce kReleased 118]
           {| getClient := Some 1%nat; getOpJourney := Some (OpJourney_ctor kRunning 100) |}
           (OpJourney_ctor kRunning 100)).
  - reflexivity.
  - reflexivity.
  - reflexivity.
  - discriminate.
  - discriminate.
  - repeat constructor; discriminate.
Defined.

(** A guard for [kDestroyed] cannot be undone: its destructor leaves
    [kDestroyed], which has no bucket. *)
Example scoped_kDestroyed :
  scoped (Some 1%nat) kDestroyed 110 [] 120
    {| getClient := Some 1%nat; getOpJourney := Some (OpJourney_ctor kRunning 100) |}
  = Abort OutOfRange.
Proof. reflexivity. Qed.

(** ** Claims about the report of the observer *)

Lemma reportStage_extends (mem : nat -> Observer) (stage : nat)
    (bob out : list (string * BSONValue)) :
  reportStage mem stage bob = Ok out -> exists entries, out = bob ++ entries.
Proof.
  unfold reportStage. intros H.
  bind_inv H s.
  destruct (decide (load (ops s) = 0)).
  - injection H as <-. exists []. now rewrite app_nil_r.
  - bind_inv H mn. bind_inv H mx. bind_inv H sd. bind_inv H so.
    bind_inv H avg. bind_inv H name.
    injection H as <-. unfold bob_append. eauto.
Qed.

Lemma reportStage_loop_extends (mem : nat -> Observer) (count start : nat)
    (bob out : list (string * BSONValue)) :
  forStages (reportStage mem) count start bob = Ok out ->
  exists entries, out = bob ++ entries.
Proof.
  revert start bob. induction count as [|count IH]; intros start bob H.
  - simpl in H. injection H as <-. exists []. now rewrite app_nil_r.
  - rewrite forStages_S in H. bind_inv H bob1.
    apply reportStage_extends in Hbob1 as [e1 ->].
    apply IH in H as [e2 ->]. exists (e1 ++ e2). now rewrite app_assoc.
Qed.

Lemma enumerators_lookup (s : Stage) : enumerators !! ordinal s = Some s.
Proof. destruct s; reflexivity. Qed.

(** With no other thread at work, one round of the loop prints the entry
    the summary has for its stage. *)
Lemma reportStage_quiet (o : Observer) (s : Stage) (bob : list (string * BSONValue)) :
  wellFormed o -> Forall (fun sm => 0 <= sm.(ops)) o.(_summary) ->
  s <> kDestroyed ->
  reportStage (fun _ => o) (ordinal s) bob = Ok (bob ++ summaryEntry o s).
Proof.
  intros Hwf Hnn Hs.
  pose proof (ordinal_nonterminal s Hs) as Hlt.
  destruct (phase_lt o (ordinal s) Hwf Hlt) as [st Hst].
  pose proof Hst as Hst'.
  apply phase_Some_inv in Hst' as (sm & Hsm & Hmn & Hmx & Hops & Hdur).
  assert (Hpos : 0 <= sm.(ops)).
  { rewrite Forall_forall in Hnn. apply Hnn. eapply list_elem_of_lookup_2. exact Hsm. }
  unfold reportStage, summaryEntry. rewrite Hst.
  rewrite (at_index_Ok _ _ _ Hsm), bind_Ok. unfold load.
  destruct (decide (sm.(ops) = 0)) as [Hz|Hnz].
  - rewrite decide_False by lia. now rewrite app_nil_r.
  - rewrite decide_True by lia.
    rewrite (at_index_Ok _ _ _ Hmn), bind_Ok, (at_index_Ok _ _ _ Hmx), !bind_Ok.
    unfold divide. rewrite decide_False by exact Hnz. rewrite bind_Ok.
    rewrite stageToString_ordinal, bind_Ok.
    unfold bob_append. now rewrite Hops, Hdur.
Qed.

Lemma reportStage_loop_quiet (o : Observer) (count start : nat)
    (bob : list (string * BSONValue)) :
  wellFormed o -> Forall (fun sm => 0 <= sm.(ops)) o.(_summary) ->
  (start + count <= ordinal kDestroyed)%nat ->
  forStages (reportStage (fun _ => o)) count start bob =
    Ok (bob ++ flat_map (summaryEntry o) (take count (drop start enumerators))).
Proof.
  intros Hwf Hnn. revert start bob.
  induction count as [|count IH]; intros start bob Hle.
  - simpl. now rewrite app_nil_r.
  - destruct (stageToString_lt start) as (s & -> & _); [lia|].
    assert (Hs : s <> kDestroyed) by (intros ->; lia).
    rewrite forStages_S, (reportStage_quiet o s bob Hwf Hnn Hs), bind_Ok.
    rewrite IH by lia.
    rewrite (drop_S _ _ _ (enumerators_lookup s)). cbn [take flat_map].
    now rewrite app_assoc.
Qed.

Lemma Observer_append_quiet (o : Observer) (bob : list (string * BSONValue)) :
  wellFormed o -> Forall (fun sm => 0 <= sm.(ops)) o.(_summary) ->
  Observer_append (fun _ => o) bob =
    Ok (bob ++ summaryEntries o ++
        [("operations"%string, BLong (load o.(_totalOps)));
         ("stable"%string, BBool true)]).
Proof.
  intros Hwf Hnn. unfold Observer_append.
  assert (Hlen : length o.(_summary) = ordinal kDestroyed) by apply Hwf.
  rewrite Hlen, (reportStage_loop_quiet o _ 0 bob Hwf Hnn), bind_Ok by lia.
  unfold bob_append. rewrite bool_decide_eq_true_2 by reflexivity.
  rewrite <- !app_assoc. do 2 f_equal. unfold summaryEntries.
  change enumerators with (take (ordinal kDestroyed) (drop 0 enumerators) ++ [kDestroyed]).
  rewrite flat_map_app. cbn [flat_map]. unfold summaryEntry at 3.
  rewrite (phase_ge o (ordinal kDestroyed) Hwf) by lia.
  now rewrite !app_nil_r.
Qed.

(** An observer that the constructor and captures produced has no negative
    count. *)
Lemma ObserverInv_ops_nonneg (o : Observer) :
  ObserverInv o -> Forall (fun sm => 0 <= sm.(ops)) o.(_summary).
Proof.
  intros (Hwf & Hinv). apply Forall_lookup. intros p sm Hsm.
  assert (Hp : (p < ordinal kDestroyed)%nat).
  { destruct Hwf as (<- & _). eapply lookup_lt_Some. exact Hsm. }
  destruct (phase_lt o p Hwf Hp) as [st Hst].
  destruct (Hinv p st Hst) as ((Hnn & _) & _).
  apply phase_Some_inv in Hst as (sm' & Hsm' & _ & _ & Hops & _).
  rewrite Hsm in Hsm'. injection Hsm' as <-. lia.
Qed.

(** C8. [Observer::append] loads [totalOps] first; it closes the document
    with that value as ["operations"] and with ["stable"] true exactly when
    the load of [totalOps] it makes at the end returns the same value,
    whatever other threads did to the observer in between.  With no other
    thread at work it prints, stage by stage, an entry with [min], [max]
    and [avg = durationSum / opsSeen] for the stages with [opsSeen > 0] and
    nothing for the others, then ["operations"] and ["stable" = true]; that
    is so for any observer without a negative count, and so for every
    observer that captures have led to from the constructor. *)
Theorem Observer_append_spec (mem : nat -> Observer) (bob : list (string * BSONValue)) :
  (forall out,
     Observer_append mem bob = Ok out ->
     exists entries,
       out = bob ++ entries ++
             [("operations"%string, BLong (load (mem 0%nat).(_totalOps)));
              ("stable"%string,
               BBool (bool_decide
                        (load (mem 0%nat).(_totalOps)
                         = load (mem (slot (length (mem 0%nat).(_summary)) 0)).(_totalOps))))]) /\
  (forall o,
     (forall t, mem t = o) -> wellFormed o ->
     Forall (fun sm => 0 <= sm.(ops)) o.(_summary) ->
     Observer_append mem bob =
       Ok (bob ++ summaryEntries o ++
           [("operations"%string, BLong (load o.(_totalOps)));
            ("stable"%string, BBool true)])) /\
  (forall journeys o,
     (forall t, mem t = o) -> Forall capturable journeys ->
     captureAll journeys Observer_ctor = Ok o ->
     Observer_append mem bob =
       Ok (bob ++ summaryEntries o ++
           [("operations"%string, BLong (Z.of_nat (length journeys)));
            ("stable"%string, BBool true)])).
Proof.
  assert (Hquiet : forall o, (forall t, mem t = o) ->
                     Observer_append mem bob = Observer_append (fun _ => o) bob).
  { intros o Hmem. unfold Observer_append. rewrite !Hmem.
    rewrite (forStages_ext (reportStage mem) (reportStage (fun _ => o))); [reflexivity|].
    intros i x. unfold reportStage. now rewrite !Hmem. }
  split; [|split].
  - intros out H. unfold Observer_append in H.
    apply bind_Ok_inv in H as (bob1 & H1 & H).
    apply reportStage_loop_extends in H1 as [entries ->].
    injection H as <-. exists entries. unfold bob_append.
    now rewrite <- !app_assoc.
  - intros o Hmem Hwf Hnn. rewrite (Hquiet o Hmem).
    now apply Observer_append_quiet.
  - intros journeys o Hmem Hall Hrun. rewrite (Hquiet o Hmem).
    pose proof (captureAll_ObserverInv journeys Observer_ctor o Hall
                  Observer_ctor_ObserverInv Hrun) as Hinv.
    destruct (captureAll_spec journeys Observer_ctor Hall Observer_ctor_wellFormed)
      as (o' & Hrun' & _ & Htot).
    rewrite Hrun in Hrun'. injection Hrun' as <-.
    rewrite (Observer_append_quiet o bob); [|apply Hinv|now apply ObserverInv_ops_nonneg].
    unfold load. rewrite Htot. reflexivity.
Qed.

Lemma Observer_append_spec_witness :
  Observer_append (fun _ => sampleObserver) [] =
    Ok ([] ++ summaryEntries sampleObserver ++
        [("operations"%string, BLong (load sampleObserver.(_totalOps)));
         ("stable"%string, BBool true)]).
Proof.
  apply (proj1 (proj2 (Observer_append_spec (fun _ => sampleObserver) []))).
  - reflexivity.
  - repeat split; reflexivity.
  - repeat (constructor; [simpl; lia|]). constructor.
Defined.

(** ** The scenarios of the spec, run on the model *)

(** An operation that runs for 10 ms, is on the network for 5 ms, stays
    released for 2 ms and is torn down: the three buckets are exact and
    ["other"] is zero when the destructor reads the same time twice. *)
Example scenario_three_stages :
  (j ← enterStages [(kNetworkSync, 10000000); (kReleased, 15000000)]
                   (OpJourney_ctor kRunning 0);
   '(jd, _, bob) ← OpJourney_dtor 17000000 17000000 j (Some Observer_ctor);
   Ok (jd.(_profile), bob))
  = Ok ([10000000; 0; 0; 0; 0; 0; 0; 0; 5000000; 2000000],
        [("running"%string, BDuration 10000000); ("egress"%string, BDuration 5000000);
         ("released"%string, BDuration 2000000); ("other"%string, BDuration 0)]).
Proof. reflexivity. Qed.

(** Two operations that spent 3 ms and 7 ms in [running]: the observer has
    seen two, with sum 10 ms, minimum 3 ms, maximum 7 ms and average 5 ms. *)
Example scenario_two_operations :
  (j3 ← enterStage kDestroyed 3000000 (OpJourney_ctor kRunning 0);
   j7 ← enterStage kDestroyed 7000000 (OpJourney_ctor kRunning 0);
   o ← captureAll [j3; j7] Observer_ctor;
   bob ← Observer_append (fun _ => o) [];
   Ok (o, bob))
  = Ok (sampleObserver,
        [("running"%string,
          BObj [("min"%string, BDuration 3000000); ("max"%string, BDuration 7000000);
                ("avg"%string, BDuration 5000000)]);
         ("operations"%string, BLong 2); ("stable"%string, BBool true)]).
Proof. reflexivity. Qed.

(** A capture that lands while [append] is walking the stages: the closing
    load of [totalOps] no longer agrees with the first and ["stable"] is
    false. *)
Example scenario_raced_report :
  (j3 ← enterStage kDestroyed 3000000 (OpJourney_ctor kRunning 0);
   o ← capture j3 Observer_ctor;
   o' ← capture j3 o;
   bob ← Observer_append (fun t => if decide (t < slot 4 0)%nat then o else o') [];
   Ok (last bob))
  = Ok (Some ("stable"%string, BBool false)).
Proof. reflexivity. Qed.

(** Tracking switched off: [enable] attaches nothing, the two macros do
    nothing and no observer is made. *)
Example scenario_tracking_disabled (current : option nat) (now : Nanoseconds)
    (newStage : Stage) (opCtx : OperationContext) :
  enable false current now opCtx = Ok opCtx /\
  OpJourneyStage false current newStage now opCtx = Ok opCtx /\
  makeScopedOpJourney false current newStage now opCtx = Ok (None, opCtx) /\
  registerOpJourneyObserver false = None.
Proof. repeat split; reflexivity. Qed.

(** ** Further properties of the journey *)

(** X1. An [enterStage] that returns leaves [_created], the size of the
    profile and every bucket but the one of the stage it leaves as they
    were. *)
Theorem enterStage_frame (j j' : OpJourney) (newStage : Stage) (now : Nanoseconds) :
  enterStage newStage now j = Ok j' ->
  j'.(_created) = j.(_created) /\
  length j'.(_profile) = length j.(_profile) /\
  (forall p, p <> ordinal j.(_current).(stage) ->
             j'.(_profile) !! p = j.(_profile) !! p) /\
  (forall s, s <> j.(_current).(stage) -> bucket j' s = bucket j s).
Proof.
  intros H. unfold enterStage in H. destruct (decide _) as [Heq|Hne].
  - injection H as <-. now repeat split.
  - bind_inv H spent. injection H as <-. simpl.
    split; [reflexivity|]. split; [apply length_insert|]. split.
    + intros p Hp. now apply list_lookup_insert_ne.
    + intros s Hs. unfold bucket. simpl.
      rewrite list_lookup_insert_ne; [reflexivity|].
      intros Hord. apply Hs. symmetry. now apply ordinal_inj.
Qed.

Lemma enterStage_frame_witness :
  bucket {| _created := 100;
            _current := {| stage := kNetworkSync; entered := 110 |};
            _profile := [10; 0; 0; 0; 0; 0; 0; 0; 0; 0] |} kReleased
  = bucket (OpJourney_ctor kRunning 100) kReleased.
Proof.
  apply (proj2 (proj2 (proj2
           (enterStage_frame (OpJourney_ctor kRunning 100) _ kNetworkSync 110 eq_refl)))).
  discriminate.
Defined.

(** X2. When the clock readings of the constructor and of the calls never
    go back, no bucket is negative and the time of the last stage change
    lies between the construction and the last reading. *)
Theorem journey_nonNegative (initial : Stage) (created : Nanoseconds)
    (calls : list (Stage * Nanoseconds)) (j : OpJourney) :
  clockOrdered created calls ->
  enterStages calls (OpJourney_ctor initial created) = Ok j ->
  nonNegative j /\
  created <= j.(_current).(entered) <= lastReading created calls.
Proof.
  intros Hclock Hrun.
  destruct (enterStages_nonNegative calls created (OpJourney_ctor initial created) j)
    as (Hnn & Hlast); try assumption.
  - unfold nonNegative. cbn [OpJourney_ctor _profile]. apply Forall_replicate. lia.
  - simpl. lia.
  - split; [exact Hnn|]. split; [|exact Hlast].
    destruct (enterStages_keep_accounted created calls _ j
                (OpJourney_ctor_accounted initial created) Hrun) as (_ & _ & Hsum).
    assert (0 <= sumZ j.(_profile)).
    { clear -Hnn. unfold nonNegative in Hnn.
      induction Hnn as [|d l Hd _ IH]; simpl; lia. }
    lia.
Qed.

Lemma journey_nonNegative_witness :
  nonNegative {| _created := 100;
                 _current := {| stage := kReleased; entered := 115 |};
                 _profile := [10; 0; 0; 0; 0; 0; 0; 0; 5; 0] |} /\
  100 <= 115 <= lastReading 100 [(kNetworkSync, 110); (kNetworkSync, 112); (kReleased, 115)].
Proof.
  apply (journey_nonNegative kRunning 100
           [(kNetworkSync, 110); (kNetworkSync, 112); (kReleased, 115)]).
  - simpl. lia.
  - reflexivity.
Defined.

Lemma attribution_run (calls : list (Stage * Nanoseconds)) (t : Nanoseconds)
    (j j' : OpJourney) (s : Stage) :
  enterStages calls j = Ok j' ->
  bucket j' s + openIn j' (lastReading t calls) s
  = bucket j s + openIn j t s + timeIn s j.(_current).(stage) t calls.
Proof.
  revert t j. induction calls as [|[next now] calls IH]; intros t j Hrun.
  - simpl in Hrun. injection Hrun as <-. simpl. lia.
  - cbn [enterStages] in Hrun. bind_inv Hrun j1.
    cbn [lastReading foldl timeIn]. simpl snd.
    change (foldl (fun _ c => snd c) now calls) with (lastReading now calls).
    rewrite (IH now j1 Hrun).
    assert (Hstage1 : j1.(_current).(stage) = next) by (eapply enterStage_stage; eassumption).
    rewrite Hstage1.
    enough (bucket j1 s + openIn j1 now s
            = bucket j s + openIn j t s
              + (if decide (j.(_current).(stage) = s) then now - t else 0)) by lia.
    unfold enterStage in Hj1. destruct (decide (j.(_current).(stage) = next)) as [Heq|Hne].
    + injection Hj1 as <-. unfold openIn. destruct (decide _); lia.
    + bind_inv Hj1 spent. injection Hj1 as <-.
      unfold at_index in Hspent.
      destruct (_profile j !! ordinal (stage (_current j))) as [x|] eqn:Hx; [|discriminate].
      injection Hspent as ->.
      unfold openIn, bucket. simpl.
      destruct (decide (j.(_current).(stage) = s)) as [<-|Hs].
      * rewrite list_lookup_insert_eq by (eapply lookup_lt_Some; exact Hx).
        rewrite Hx. simpl. rewrite decide_False by congruence. lia.
      * rewrite list_lookup_insert_ne
          by (intros Hord; apply Hs; now apply ordinal_inj).
        destruct (decide (next = s)); lia.
Qed.

(** X3. Every bucket holds the time during which its stage was the current
    one: after a run of calls from the constructor, the bucket of [s], plus
    the stretch still open if [s] is the current stage, is the time the
    calls spend in [s]; repeated calls for the current stage lose nothing.
    After [enterStage(kDestroyed)] nothing is open and each bucket is that
    time exactly. *)
Theorem bucket_is_time_in_stage (initial : Stage) (created : Nanoseconds)
    (calls : list (Stage * Nanoseconds)) (j : OpJourney) (s : Stage) :
  enterStages calls (OpJourney_ctor initial created) = Ok j ->
  bucket j s + openIn j (lastReading created calls) s = timeIn s initial created calls /\
  (finalized j -> s <> kDestroyed -> bucket j s = timeIn s initial created calls).
Proof.
  intros Hrun.
  pose proof (attribution_run calls created _ j s Hrun) as H.
  assert (Hzero : bucket (OpJourney_ctor initial created) s
                  + openIn (OpJourney_ctor initial created) created s = 0).
  { assert (Hb : bucket (OpJourney_ctor initial created) s = 0)
      by (destruct s; reflexivity).
    rewrite Hb. unfold openIn. simpl. destruct (decide _); lia. }
  change (stage (_current (OpJourney_ctor initial created))) with initial in H.
  split; [lia|].
  intros Hfin Hs. unfold finalized in Hfin.
  assert (Hopen : openIn j (lastReading created calls) s = 0).
  { unfold openIn. rewrite Hfin. now rewrite decide_False by congruence. }
  lia.
Qed.

Lemma bucket_is_time_in_stage_witness :
  bucket {| _created := 100;
            _current := {| stage := kDestroyed; entered := 130 |};
            _profile := [10; 0; 0; 0; 0; 0; 0; 0; 20; 0] |} kNetworkSync
  = timeIn kNetworkSync kRunning 100
      [(kNetworkSync, 110); (kNetworkSync, 120); (kDestroyed, 130)].
Proof.
  apply (proj2 (bucket_is_time_in_stage kRunning 100
                  [(kNetworkSync, 110); (kNetworkSync, 120); (kDestroyed, 130)]
                  _ kNetworkSync eq_refl)).
  - reflexivity.
  - discriminate.
Defined.

Lemma durationsOf_app (a b : list (string * BSONValue)) :
  durationsOf (a ++ b) = durationsOf a + durationsOf b.
Proof. unfold durationsOf. now rewrite flat_map_app, sumZ_app. Qed.

Lemma journeyEntry_durations (j : OpJourney) (s : Stage) (spent : Nanoseconds) :
  j.(_profile) !! ordinal s = Some spent ->
  durationsOf (journeyEntry j s) = spent.
Proof.
  intros H. unfold journeyEntry. rewrite H.
  destruct (decide (spent = 0)) as [->|Hnz]; [reflexivity|].
  unfold durationsOf. simpl. lia.
Qed.

Lemma appendStage_loop_exact (j : OpJourney) (count start : nat)
    (bob : list (string * BSONValue)) (sum : Nanoseconds) :
  (start + count <= length j.(_profile))%nat ->
  (length j.(_profile) <= ordinal kDestroyed)%nat ->
  forStages (appendStage j) count start (bob, sum) =
    Ok (bob ++ flat_map (journeyEntry j) (take count (drop start enumerators)),
        sum + durationsOf (flat_map (journeyEntry j) (take count (drop start enumerators)))).
Proof.
  revert start bob sum. induction count as [|count IH]; intros start bob sum Hlen Hsz.
  - simpl. rewrite app_nil_r. unfold durationsOf. simpl. now rewrite Z.add_0_r.
  - assert (Hlt : (start < length j.(_profile))%nat) by lia.
    destruct (at_index_lt _ _ Hlt) as (spent & Hlook & _).
    destruct (stageToString_lt start) as (s & -> & Hname); [lia|].
    rewrite (drop_S _ _ _ (enumerators_lookup s)). cbn [take flat_map].
    rewrite durationsOf_app, (journeyEntry_durations j s spent Hlook).
    rewrite forStages_S, (appendStage_at _ _ _ _ _ Hlook).
    assert (Hentry : journeyEntry j s
                     = if decide (spent = 0) then [] else [(stageName s, BDuration spent)])
      by (unfold journeyEntry; now rewrite Hlook).
    rewrite Hentry.
    destruct (decide (spent = 0)) as [->|Hnz].
    + rewrite bind_Ok, IH by lia. cbn [app]. do 2 f_equal; lia.
    + rewrite Hname, !bind_Ok, IH by lia. unfold bob_append.
      rewrite <- app_assoc. cbn [app]. do 2 f_equal; lia.
Qed.

Lemma journeyEntries_wellSized (j : OpJourney) :
  wellSized j ->
  journeyEntries j = flat_map (journeyEntry j) (take (ordinal kDestroyed) (drop 0 enumerators)).
Proof.
  intros Hsz. unfold journeyEntries.
  change enumerators with (take (ordinal kDestroyed) (drop 0 enumerators) ++ [kDestroyed]) at 1.
  rewrite flat_map_app. cbn [flat_map]. unfold journeyEntry at 2.
  rewrite (lookup_ge_None_2 j.(_profile) (ordinal kDestroyed)) by (rewrite Hsz; lia).
  now rewrite !app_nil_r.
Qed.

(** X4. [OpJourney::append] adds to the document one field per stage whose
    bucket is not zero, under the name of the stage and in the order of the
    stages, and then ["other"]; the durations it adds, ["other"] included,
    add up to the time between construction and the clock reading of the
    call. *)
Theorem OpJourney_append_fields (now : Nanoseconds) (j : OpJourney)
    (bob : list (string * BSONValue)) :
  wellSized j ->
  OpJourney_append now j bob =
    Ok (bob ++ journeyEntries j ++
        [("other"%string, BDuration (now - j.(_created) - sumZ j.(_profile)))]) /\
  durationsOf (journeyEntries j) = sumZ j.(_profile) /\
  durationsOf (journeyEntries j ++
               [("other"%string, BDuration (now - j.(_created) - sumZ j.(_profile)))])
  = now - j.(_created).
Proof.
  intros Hsz.
  pose proof (appendStage_loop_exact j (ordinal kDestroyed) 0 bob 0) as Hexact.
  rewrite <- (journeyEntries_wellSized j Hsz) in Hexact.
  assert (Hfit : (0 + ordinal kDestroyed <= length j.(_profile))%nat)
    by (rewrite Hsz; lia).
  assert (Hfit' : (length j.(_profile) <= ordinal kDestroyed)%nat)
    by (rewrite Hsz; lia).
  specialize (Hexact Hfit Hfit').
  destruct (appendStage_loop j (ordinal kDestroyed) 0 bob 0) as [fields Hsum];
    [rewrite Hsz; lia | exact Hfit' |].
  rewrite Hexact in Hsum. injection Hsum as _ Hsum. rewrite drop_0 in Hsum.
  assert (Hdur : durationsOf (journeyEntries j) = sumZ j.(_profile)) by lia.
  split; [|split].
  - unfold OpJourney_append. rewrite Hsz, Hexact, bind_Ok.
    unfold bob_append. rewrite Hdur, <- app_assoc. do 4 f_equal; lia.
  - exact Hdur.
  - rewrite durationsOf_app, Hdur. unfold durationsOf. simpl. lia.
Qed.

Lemma OpJourney_append_fields_witness :
  OpJourney_append 140
    {| _created := 100;
       _current := {| stage := kDestroyed; entered := 130 |};
       _profile := [10; 0; 0; 0; 0; 0; 0; 0; 20; 0] |} []
  = Ok ([("running"%string, BDuration 10); ("egress"%string, BDuration 20);
         ("other"%string, BDuration 10)]).
Proof.
  apply (proj1 (OpJourney_append_fields 140
                  {| _created := 100;
                     _current := {| stage := kDestroyed; entered := 130 |};
                     _profile := [10; 0; 0; 0; 0; 0; 0; 0; 20; 0] |} [] eq_refl)).
Defined.

(** X5. When the destructor of a journey returns, the buckets account for
    all the time from construction to the last stage change, and ["other"]
    in the document it logs is the time from that change to the clock
    reading of [append]: for a journey that was not yet in [kDestroyed],
    the time between the two clock readings of the destructor itself. *)
Theorem OpJourney_dtor_other (initial : Stage) (created nowEnter nowAppend : Nanoseconds)
    (calls : list (Stage * Nanoseconds)) (j jd : OpJourney) (observer : option Observer)
    (o' : Observer) (bob : list (string * BSONValue)) :
  enterStages calls (OpJourney_ctor initial created) = Ok j ->
  OpJourney_dtor nowEnter nowAppend j observer = Ok (jd, o', bob) ->
  finalized jd /\
  sumZ jd.(_profile) = jd.(_current).(entered) - created /\
  other_of bob = Some (BDuration (nowAppend - jd.(_current).(entered))) /\
  (j.(_current).(stage) <> kDestroyed ->
   jd.(_current).(entered) = nowEnter /\
   other_of bob = Some (BDuration (nowAppend - nowEnter))).
Proof.
  intros Hrun Hdtor.
  pose proof (enterStages_keep_accounted created calls _ j
                (OpJourney_ctor_accounted initial created) Hrun) as Hacc.
  unfold OpJourney_dtor in Hdtor.
  bind_inv Hdtor j1. bind_inv Hdtor o. bind_inv Hdtor o1. bind_inv Hdtor bob1.
  injection Hdtor as <- <- <-.
  pose proof (enterStage_accounted created j j1 kDestroyed nowEnter Hacc Hj1)
    as (Hc1 & Hsz1 & Hsum1).
  pose proof (enterStage_stage _ _ _ _ Hj1) as Hfin.
  destruct (OpJourney_append_other nowAppend j1 [] Hsz1) as (out & Hout & Hother).
  rewrite Hbob1 in Hout. injection Hout as <-.
  assert (Hval : other_of bob1 = Some (BDuration (nowAppend - j1.(_current).(entered)))).
  { rewrite Hother. do 2 f_equal. lia. }
  split; [exact Hfin|]. split; [exact Hsum1|]. split; [exact Hval|].
  intros Hlive.
  assert (Hentered : j1.(_current).(entered) = nowEnter).
  { unfold enterStage in Hj1. rewrite decide_False in Hj1 by exact Hlive.
    bind_inv Hj1 spent. now injection Hj1 as <-. }
  split; [exact Hentered|]. now rewrite Hval, Hentered.
Qed.

Lemma OpJourney_dtor_other_witness :
  exists jd o' bob,
    OpJourney_dtor 130 140
      {| _created := 100;
         _current := {| stage := kNetworkSync; entered := 110 |};
         _profile := [10; 0; 0; 0; 0; 0; 0; 0; 0; 0] |} (Some Observer_ctor)
    = Ok (jd, o', bob) /\
    other_of bob = Some (BDuration (140 - 130)).
Proof.
  eexists _, _, _. split; [reflexivity|].
  apply (OpJourney_dtor_other kRunning 100 130 140 [(kNetworkSync, 110)]
           _ _ (Some Observer_ctor) _ _ eq_refl eq_refl).
  discriminate.
Defined.

(** ** Further properties of the stage names *)

Lemma stageToString_Ok_inv (value : nat) (name : string) :
  stageToString value = Ok name ->
  exists s, value = ordinal s /\ name = stageName s.
Proof.
  intros H. destruct (decide (value <= ordinal kDestroyed)%nat) as [Hle|Hgt].
  - destruct (stageToString_lt value Hle) as (s & Hs & Hname).
    exists s. split; [exact Hs|]. congruence.
  - exfalso. unfold stageToString in H.
    repeat (rewrite decide_False in H by (simpl in *; lia)). discriminate H.
Qed.

(** X6. [stageToString] never gives two values the same name, and never
    gives a name that is one of the keys ["other"], ["operations"] and
    ["stable"] that the two [append] functions add themselves: the fields
    of a document cannot collide. *)
Theorem stageToString_injective (value value' : nat) (name : string) :
  stageToString value = Ok name ->
  (stageToString value' = Ok name -> value = value') /\
  name <> "other"%string /\ name <> "operations"%string /\ name <> "stable"%string.
Proof.
  intros H. apply stageToString_Ok_inv in H as (s & -> & ->). split.
  - intros H'. apply stageToString_Ok_inv in H' as (s' & -> & Hname).
    f_equal. destruct s, s'; try reflexivity; discriminate Hname.
  - destruct s; repeat split; discriminate.
Qed.

Lemma stageToString_injective_witness :
  (stageToString 8 = Ok "egress"%string -> 8%nat = 8%nat) /\
  "egress"%string <> "other"%string /\ "egress"%string <> "operations"%string /\
  "egress"%string <> "stable"%string.
Proof.
  apply (stageToString_injective 8 8 "egress" eq_refl).
Defined.

(** ** Further properties of the observer *)

(** X7. What the observer holds after a run of captures from its
    constructor, stage by stage, as long as the sum of the durations of the
    stage never leaves its 64-bit word: [opsSeen] is the number of captured
    journeys with a nonzero duration in the stage, [durationSum] the sum of
    those durations, [min] and [max] the smallest and the largest of them
    and of the sentinel of the constructor. *)
Theorem captureAll_aggregates (journeys : list OpJourney) (o : Observer) (p : nat) :
  Forall capturable journeys ->
  sumsFit p journeys ->
  captureAll journeys Observer_ctor = Ok o ->
  (p < ordinal kDestroyed)%nat ->
  phase o p =
    Some {| opsSeen := Z.of_nat (length (durationsAt p journeys));
            durationSum := sumZ (durationsAt p journeys);
            phaseMin := foldl Z.min Nanoseconds_max (durationsAt p journeys);
            phaseMax := foldl Z.max Nanoseconds_min (durationsAt p journeys) |} /\
  representable (sumZ (durationsAt p journeys)) /\
  (forall d, d ∈ durationsAt p journeys ->
     foldl Z.min Nanoseconds_max (durationsAt p journeys) <= d
     <= foldl Z.max Nanoseconds_min (durationsAt p journeys)).
Proof.
  intros Hall Hfit Hrun Hp. split; [|split].
  - rewrite (captureAll_phase journeys Observer_ctor o p Hall
               Observer_ctor_wellFormed Hrun Hp).
    destruct (phase_lt Observer_ctor p Observer_ctor_wellFormed Hp) as [st Hst].
    rewrite Hst. rewrite (Observer_ctor_phase p st Hst). simpl.
    rewrite absorb_all. unfold durationsAt. simpl. reflexivity.
  - now apply sumsFit_all.
  - generalize (durationsAt p journeys). intros ds.
    generalize Nanoseconds_max, Nanoseconds_min. intros a b d Hd.
    revert a b. induction ds as [|x ds IH]; intros a b.
    + inversion Hd.
    + assert (Hmin : forall l a, foldl Z.min a l <= a).
      { induction l as [|y l IHl]; intros c; simpl; [lia|].
        specialize (IHl (Z.min c y)). lia. }
      assert (Hmax : forall l b, b <= foldl Z.max b l).
      { induction l as [|y l IHl]; intros c; simpl; [lia|].
        specialize (IHl (Z.max c y)). lia. }
      cbn [foldl]. apply elem_of_cons in Hd as [->|Hd].
      * specialize (Hmin ds (Z.min a x)). specialize (Hmax ds (Z.max b x)). lia.
      * apply IH. exact Hd.
Qed.

Lemma captureAll_aggregates_witness :
  phase sampleObserver 0
  = Some {| opsSeen := 2; durationSum := 10000000;
            phaseMin := 3000000; phaseMax := 7000000 |}.
Proof.
  apply (proj1 (captureAll_aggregates
           [ {| _created := 0; _current := mkState kDestroyed 3000000;
                _profile := [3000000; 0; 0; 0; 0; 0; 0; 0; 0; 0] |};
             {| _created := 0; _current := mkState kDestroyed 7000000;
                _profile := [7000000; 0; 0; 0; 0; 0; 0; 0; 0; 0] |} ]
           sampleObserver 0 ltac:(repeat constructor)
           ltac:(apply sumsFit_nonNegative;
                 [repeat (constructor; try (simpl; lia)) | vm_compute; discriminate])
           eq_refl ltac:(simpl; lia))).
Defined.

Lemma reportStage_growing (mem : nat -> Observer) (stage : nat)
    (bob : list (string * BSONValue)) :
  growing mem -> (stage < ordinal kDestroyed)%nat ->
  exists out, reportStage mem stage bob = Ok out.
Proof.
  intros (Hwf & Hnn & Hup) Hlt.
  assert (Hsum : forall t, exists sm, (mem t).(_summary) !! stage = Some sm).
  { intros t. apply lookup_lt_is_Some_2. destruct (Hwf t) as (-> & _). exact Hlt. }
  assert (Hmin : forall t, exists v, (mem t).(_min) !! stage = Some v).
  { intros t. apply lookup_lt_is_Some_2. destruct (Hwf t) as (_ & _ & ->). exact Hlt. }
  assert (Hmax : forall t, exists v, (mem t).(_max) !! stage = Some v).
  { intros t. apply lookup_lt_is_Some_2. destruct (Hwf t) as (_ & -> & _). exact Hlt. }
  destruct (Hsum (slot stage 0)) as [s0 Hs0].
  destruct (Hmin (slot stage 1)) as [mn Hmn].
  destruct (Hmax (slot stage 2)) as [mx Hmx].
  destruct (Hsum (slot stage 3)) as [s3 Hs3].
  destruct (Hsum (slot stage 4)) as [s4 Hs4].
  unfold reportStage. rewrite (at_index_Ok _ _ _ Hs0), bind_Ok.
  destruct (decide (load (ops s0) = 0)) as [Hz|Hnz]; [eauto|].
  rewrite (at_index_Ok _ _ _ Hmn), bind_Ok, (at_index_Ok _ _ _ Hmx), bind_Ok.
  rewrite (at_index_Ok _ _ _ Hs3), bind_Ok, (at_index_Ok _ _ _ Hs4), bind_Ok.
  assert (Hpos : 0 < ops s4).
  { pose proof (Hnn _ _ _ Hs0) as H0.
    pose proof (Hup (slot stage 0) (slot stage 4) stage s0 s4) as Hle.
    unfold load in Hnz. unfold slot in Hle.
    specialize (Hle ltac:(lia) Hs0 Hs4). lia. }
  unfold divide, load. rewrite decide_False by lia. rewrite bind_Ok.
  destruct (stageToString_lt stage) as (s & _ & ->); [lia|].
  rewrite bind_Ok. eauto.
Qed.

(** X8. While captures only add to the counts, [Observer::append] never
    divides by zero and never runs off a vector: over any history of the
    observer in which every state has the constructor's sizes and no count
    is negative or goes down, it returns a document, which ends with
    ["operations"] and ["stable"]. *)
Theorem Observer_append_growing (mem : nat -> Observer) (bob : list (string * BSONValue)) :
  growing mem ->
  exists entries stable,
    Observer_append mem bob =
      Ok (bob ++ entries ++
          [("operations"%string, BLong (load (mem 0%nat).(_totalOps)));
           ("stable"%string, BBool stable)]).
Proof.
  intros Hgrow.
  assert (Hloop : forall count start b,
            (start + count <= ordinal kDestroyed)%nat ->
            exists out, forStages (reportStage mem) count start b = Ok out).
  { induction count as [|count IH]; intros start b Hle; [simpl; eauto|].
    destruct (reportStage_growing mem start b Hgrow) as [b1 Hb1]; [lia|].
    destruct (IH (S start) b1) as [out Hout]; [lia|].
    exists out. now rewrite forStages_S, Hb1, bind_Ok. }
  destruct Hgrow as (Hwf & _).
  destruct (Hloop (length (mem 0%nat).(_summary)) 0%nat bob) as [out Hout].
  { destruct (Hwf 0%nat) as (-> & _). lia. }
  pose proof Hout as Hext. apply reportStage_loop_extends in Hext as [entries ->].
  exists entries. eexists. unfold Observer_append. rewrite Hout, bind_Ok.
  unfold bob_append. rewrite <- !app_assoc. reflexivity.
Qed.

Lemma growing_switch (o1 o2 : Observer) (n : nat) :
  wellFormed o1 -> wellFormed o2 ->
  Forall2 (fun a b => 0 <= a.(ops) <= b.(ops)) o1.(_summary) o2.(_summary) ->
  growing (fun t => if (t <? n)%nat then o1 else o2).
Proof.
  intros Hwf1 Hwf2 Hle.
  assert (Hpair : forall p a b, o1.(_summary) !! p = Some a -> o2.(_summary) !! p = Some b ->
                                0 <= a.(ops) <= b.(ops)).
  { intros p a b Ha Hb.
    exact (Forall2_lookup_lr (fun a b => 0 <= a.(ops) <= b.(ops)) _ _ p a b Hle Ha Hb). }
  assert (Hnn2 : forall p b, o2.(_summary) !! p = Some b -> 0 <= b.(ops)).
  { intros p b Hb.
    destruct (Forall2_lookup_r _ _ _ p b Hle Hb) as (a & Ha & Hab). simpl in Hab. lia. }
  assert (Hnn1 : forall p a, o1.(_summary) !! p = Some a -> 0 <= a.(ops)).
  { intros p a Ha.
    destruct (Forall2_lookup_l _ _ _ p a Hle Ha) as (b & Hb & Hab). simpl in Hab. lia. }
  repeat split.
  - destruct (_ <? _)%nat; [apply Hwf1 | apply Hwf2].
  - destruct (_ <? _)%nat; [apply Hwf1 | apply Hwf2].
  - destruct (_ <? _)%nat; [apply Hwf1 | apply Hwf2].
  - intros t p sm. destruct (_ <? _)%nat; [apply Hnn1 | apply Hnn2].
  - intros t t' p sm sm' Htt.
    destruct (Nat.ltb_spec t n), (Nat.ltb_spec t' n); intros Hs Hs'.
    + rewrite Hs in Hs'. injection Hs' as <-. lia.
    + eapply Hpair; eassumption.
    + lia.
    + rewrite Hs in Hs'. injection Hs' as <-. lia.
Qed.

Lemma Observer_append_growing_witness :
  exists entries stable,
    Observer_append (fun t => if (t <? 20)%nat then sampleObserver
                              else sampleObserverLater) [] =
      Ok ([] ++ entries ++
          [("operations"%string, BLong 2); ("stable"%string, BBool stable)]).
Proof.
  apply (Observer_append_growing
           (fun t => if (t <? 20)%nat then sampleObserver else sampleObserverLater) []).
  apply growing_switch.
  - repeat split; reflexivity.
  - repeat split; reflexivity.
  - repeat (constructor; [simpl; lia|]). constructor.
Defined.

(** X9. The ["stable"] flag tells whether a capture got through between the
    first and the last load of [append]: when the last load of [totalOps]
    sees the observer after a run of captures on the state of the first
    load, ["stable"] is true exactly when that run is empty. *)
Theorem Observer_append_stable (mem : nat -> Observer) (bob out : list (string * BSONValue))
    (journeys : list OpJourney) (o' : Observer) :
  wellFormed (mem 0%nat) -> Forall capturable journeys ->
  captureAll journeys (mem 0%nat) = Ok o' ->
  (mem (slot (length (mem 0%nat).(_summary)) 0)).(_totalOps) = o'.(_totalOps) ->
  Observer_append mem bob = Ok out ->
  last out = Some ("stable"%string, BBool (bool_decide (journeys = []))).
Proof.
  intros Hwf Hall Hrun Hlast H.
  destruct (captureAll_spec journeys (mem 0%nat) Hall Hwf) as (o1 & Hrun1 & _ & Htot).
  rewrite Hrun in Hrun1. injection Hrun1 as <-.
  unfold Observer_append in H. bind_inv H bob1. injection H as <-.
  unfold bob_append. rewrite last_snoc. do 3 f_equal.
  unfold load. rewrite Hlast, Htot.
  destruct journeys as [|j journeys].
  - simpl. rewrite Z.add_0_r. now rewrite !bool_decide_eq_true_2.
  - rewrite bool_decide_eq_false_2 by (cbn [length]; lia).
    now rewrite bool_decide_eq_false_2.
Qed.

Lemma Observer_append_stable_witness :
  last [("running"%string,
         BObj [("min"%string, BDuration 3000000); ("max"%string, BDuration 7000000);
               ("avg"%string, BDuration 5000000)]);
        ("operations"%string, BLong 2); ("stable"%string, BBool false)]
  = Some ("stable"%string,
          BBool (bool_decide
                   ([ {| _created := 0; _current := mkState kDestroyed 2000000;
                         _profile := [2000000; 0; 0; 0; 0; 0; 0; 0; 1000000; 0] |} ]
                    = []))).
Proof.
  apply (Observer_append_stable
           (fun t => if (t <? 51)%nat then sampleObserver else sampleObserverLater)
           [] _ _ sampleObserverLater).
  - repeat split; reflexivity.
  - repeat constructor.
  - reflexivity.
  - reflexivity.
  - reflexivity.
Defined.

(** X10. On journeys with a profile of the constructor's size, a run of
    captures fails in one way only: it returns when every journey is
    finalized, and it stops on the [invariant] of [capture] as soon as one
    is not. *)
Theorem captureAll_invariant (journeys : list OpJourney) (o : Observer) :
  wellFormed o -> Forall wellSized journeys ->
  (Forall finalized journeys -> exists o', captureAll journeys o = Ok o') /\
  (Exists (fun j => ~ finalized j) journeys ->
   captureAll journeys o = Abort InvariantFailure).
Proof.
  intros Hwf Hsz. split.
  - intros Hfin.
    destruct (captureAll_spec journeys o) as (o' & Hrun & _); [|exact Hwf|eauto].
    apply Forall_forall. intros j Hj. split.
    + rewrite Forall_forall in Hfin. now apply Hfin.
    + rewrite Forall_forall in Hsz. now apply Hsz.
  - revert o Hwf. induction Hsz as [|j journeys Hj Hrest IH]; intros o Hwf Hex.
    + inversion Hex.
    + cbn [captureAll]. destruct (decide (finalized j)) as [Hfin|Hnot].
      * destruct (capture_spec j o (conj Hfin Hj) Hwf) as (o1 & Hrun1 & Hwf1 & _).
        rewrite Hrun1, bind_Ok. apply IH; [exact Hwf1|].
        inversion Hex; subst; [contradiction | assumption].
      * unfold capture. unfold finalized in Hnot.
        now rewrite bool_decide_eq_false_2.
Qed.

Lemma captureAll_invariant_witness :
  captureAll [OpJourney_ctor kDestroyed 0; OpJourney_ctor kRunning 0] Observer_ctor
  = Abort InvariantFailure.
Proof.
  apply (proj2 (captureAll_invariant
                  [OpJourney_ctor kDestroyed 0; OpJourney_ctor kRunning 0] Observer_ctor
                  Observer_ctor_wellFormed ltac:(repeat constructor))).
  apply Exists_cons_tl, Exists_cons_hd. discriminate.
Defined.

(** ** Further properties of the operation and the scope guard *)

(** X11. After an [enable] that returned, [get] from the same thread gives
    the new journey, and the first announcement of another stage puts the
    time since [enable] in the bucket of [kRunning]. *)
Theorem get_after_enable (current : option nat) (now : Nanoseconds)
    (opCtx opCtx' : OperationContext) :
  enable true current now opCtx = Ok opCtx' ->
  get current opCtx' = Ok (Some (OpJourney_ctor kRunning now)) /\
  forall newStage later,
    newStage <> kRunning ->
    exists j,
      OpJourneyStage true current newStage later opCtx'
        = Ok {| getClient := opCtx.(getClient); getOpJourney := Some j |} /\
      j.(_created) = now /\
      j.(_current) = {| stage := newStage; entered := later |} /\
      bucket j kRunning = later - now /\
      forall s, s <> kRunning -> bucket j s = 0.
Proof.
  intros H. unfold enable, isTrackingEnabled in H. simpl negb in H. cbv iota in H.
  destruct (runsOnClientThread current opCtx) eqn:Hthread; simpl in H; [|discriminate].
  destruct (bool_decide (is_Some (getOpJourney opCtx))); simpl in H; [discriminate|].
  injection H as <-.
  assert (Hthread' : runsOnClientThread current
                       {| getClient := getClient opCtx;
                          getOpJourney := Some (OpJourney_ctor kRunning now) |} = true)
    by exact Hthread.
  split.
  - unfold get. now rewrite Hthread'.
  - intros newStage later Hnew.
    eexists. unfold OpJourneyStage, isTrackingEnabled, get_enterStage, get.
    rewrite Hthread'. simpl invariant. rewrite !bind_Ok. simpl deref. rewrite bind_Ok.
    rewrite (enterStage_other (OpJourney_ctor kRunning now) newStage later 0);
      [|simpl; congruence|reflexivity].
    rewrite bind_Ok. split; [reflexivity|]. simpl.
    split; [reflexivity|]. split; [reflexivity|]. split.
    + unfold bucket. simpl. lia.
    + intros s Hs. destruct s; try reflexivity. now contradiction Hs.
Qed.

Lemma get_after_enable_witness :
  get (Some 1%nat) {| getClient := Some 1%nat;
                      getOpJourney := Some (OpJourney_ctor kRunning 100) |}
  = Ok (Some (OpJourney_ctor kRunning 100)).
Proof.
  apply (proj1 (get_after_enable (Some 1%nat) 100
                  {| getClient := Some 1%nat; getOpJourney := None |} _ eq_refl)).
Defined.

(** X12. An operation that has a client can only be tracked from the thread
    of that client: from any other thread [get], [enable], the stage macro
    and both ends of a scope guard stop on an [invariant] before they touch
    the journey. *)
Theorem foreign_thread_is_fatal (current : option nat) (owner : nat)
    (opCtx : OperationContext) :
  opCtx.(getClient) = Some owner -> current <> Some owner ->
  get current opCtx = Abort InvariantFailure /\
  (forall now, enable true current now opCtx = Abort InvariantFailure) /\
  (forall newStage now,
     OpJourneyStage true current newStage now opCtx = Abort InvariantFailure /\
     ScopedStage_ctor current newStage now opCtx = Abort InvariantFailure /\
     makeScopedOpJourney true current newStage now opCtx = Abort InvariantFailure) /\
  (forall guard now, ScopedStage_dtor current guard now opCtx = Abort InvariantFailure).
Proof.
  intros Howner Hother.
  assert (Hthread : runsOnClientThread current opCtx = false).
  { unfold runsOnClientThread. rewrite Howner. now apply bool_decide_eq_false_2. }
  assert (Hget : get current opCtx = Abort InvariantFailure).
  { unfold get. now rewrite Hthread. }
  assert (Hstep : forall s t, get_enterStage current s t opCtx = Abort InvariantFailure).
  { intros s t. unfold get_enterStage. now rewrite Hget. }
  split; [exact Hget|]. split.
  - intros now. unfold enable. simpl. now rewrite Hthread.
  - split.
    + intros newStage now. unfold OpJourneyStage, makeScopedOpJourney, ScopedStage_ctor.
      simpl. now rewrite Hstep, Hget.
    + intros guard now. apply Hstep.
Qed.

Lemma foreign_thread_is_fatal_witness :
  get (Some 2%nat) {| getClient := Some 1%nat;
                      getOpJourney := Some (OpJourney_ctor kRunning 100) |}
  = Abort InvariantFailure.
Proof.
  apply (proj1 (foreign_thread_is_fatal (Some 2%nat) 1
                  {| getClient := Some 1%nat;
                     getOpJourney := Some (OpJourney_ctor kRunning 100) |}
                  eq_refl ltac:(discriminate))).
Defined.

(** X13. With tracking on, the stage macro and the scope guard go through
    the pointer of [get] without a test: on an operation that [enable] was
    never called for, they dereference null. *)
Theorem untracked_operation_is_null (current : option nat) (newStage : Stage)
    (now : Nanoseconds) (opCtx : OperationContext) :
  runsOnClientThread current opCtx = true -> opCtx.(getOpJourney) = None ->
  get current opCtx = Ok None /\
  OpJourneyStage true current newStage now opCtx = Abort NullPointer /\
  ScopedStage_ctor current newStage now opCtx = Abort NullPointer /\
  makeScopedOpJourney true current newStage now opCtx = Abort NullPointer.
Proof.
  intros Hthread Hnone.
  assert (Hget : get current opCtx = Ok None).
  { unfold get. now rewrite Hthread, Hnone. }
  split; [exact Hget|].
  unfold OpJourneyStage, makeScopedOpJourney, ScopedStage_ctor, get_enterStage.
  simpl. now rewrite Hget.
Qed.

Lemma untracked_operation_is_null_witness :
  OpJourneyStage true (Some 1%nat) kNetworkSync 110
    {| getClient := Some 1%nat; getOpJourney := None |} = Abort NullPointer.
Proof.
  apply (proj1 (proj2 (untracked_operation_is_null (Some 1%nat) kNetworkSync 110
                         {| getClient := Some 1%nat; getOpJourney := None |}
                         eq_refl eq_refl))).
Defined.

(** X14. What a scope guard with nothing announced inside it charges: a
    guard for the stage that is already current changes nothing, not even
    the time the stage was entered; a guard for another stage puts the time
    before the scope in the bucket of the old stage and the time of the
    scope in the bucket of its own, and leaves every other bucket alone. *)
Theorem scoped_charges (current : option nat) (newStage : Stage)
    (now nowExit : Nanoseconds) (opCtx : OperationContext) (j : OpJourney) :
  runsOnClientThread current opCtx = true ->
  opCtx.(getOpJourney) = Some j -> wellSized j ->
  j.(_current).(stage) <> kDestroyed -> newStage <> kDestroyed ->
  (newStage = j.(_current).(stage) ->
   scoped current newStage now [] nowExit opCtx = Ok opCtx) /\
  (newStage <> j.(_current).(stage) ->
   exists j',
     scoped current newStage now [] nowExit opCtx
       = Ok {| getClient := opCtx.(getClient); getOpJourney := Some j' |} /\
     j'.(_created) = j.(_created) /\
     j'.(_current) = {| stage := j.(_current).(stage); entered := nowExit |} /\
     bucket j' newStage = bucket j newStage + (nowExit - now) /\
     bucket j' j.(_current).(stage)
       = bucket j j.(_current).(stage) + (now - j.(_current).(entered)) /\
     forall s, s <> newStage -> s <> j.(_current).(stage) -> bucket j' s = bucket j s).
Proof.
  intros Hthread Hj Hsz Hlive Hnew.
  assert (Hget : get current opCtx = Ok (Some j)).
  { unfold get. now rewrite Hthread, Hj. }
  split.
  - intros ->. unfold scoped, ScopedStage_ctor, ScopedStage_dtor, get_enterStage.
    rewrite Hget. simpl. rewrite enterStage_same. simpl.
    unfold get_enterStage, get. simpl.
    assert (Hthread' : runsOnClientThread current
                         {| getClient := getClient opCtx; getOpJourney := Some j |} = true)
      by exact Hthread.
    rewrite Hthread'. simpl. rewrite enterStage_same. simpl.
    destruct opCtx as [c oj]. simpl in *. now subst oj.
  - intros Hne.
    destruct (bucket_of_live j Hsz Hlive) as [old Hold].
    assert (Hnewlt : (ordinal newStage < length j.(_profile))%nat)
      by (rewrite Hsz; now apply ordinal_nonterminal).
    destruct (lookup_lt_is_Some_2 _ _ Hnewlt) as [own Hown].
    assert (Hord : ordinal j.(_current).(stage) <> ordinal newStage)
      by (intros Heq; apply Hne; symmetry; now apply ordinal_inj).
    eexists. unfold scoped, ScopedStage_ctor, ScopedStage_dtor, get_enterStage.
    rewrite Hget. simpl.
    rewrite (enterStage_other j newStage now old) by (congruence || exact Hold).
    simpl. unfold get_enterStage, get.
    assert (Hthread' : forall x, runsOnClientThread current
                         {| getClient := getClient opCtx; getOpJourney := x |} = true)
      by (intros x; exact Hthread).
    rewrite Hthread'. simpl.
    rewrite (enterStage_other _ j.(_current).(stage) nowExit own);
      [|simpl; congruence|simpl; now rewrite list_lookup_insert_ne].
    simpl. split; [reflexivity|]. split; [reflexivity|]. split; [reflexivity|].
    unfold bucket. simpl. split; [|split].
    + rewrite list_lookup_insert_eq by (rewrite length_insert; exact Hnewlt).
      rewrite Hown. simpl. lia.
    + rewrite list_lookup_insert_ne by congruence.
      rewrite list_lookup_insert_eq by (eapply lookup_lt_Some; exact Hold).
      rewrite Hold. simpl. lia.
    + intros s Hs1 Hs2.
      rewrite !list_lookup_insert_ne; [reflexivity| |];
        intros Heq; [apply Hs2|apply Hs1]; symmetry; now apply ordinal_inj.
Qed.

Lemma scoped_charges_witness :
  exists j',
    scoped (Some 1%nat) kAcquireDbLock 110 [] 125
      {| getClient := Some 1%nat; getOpJourney := Some (OpJourney_ctor kRunning 100) |}
      = Ok {| getClient := Some 1%nat; getOpJourney := Some j' |} /\
    j'.(_created) = 100 /\
    j'.(_current) = {| stage := kRunning; entered := 125 |} /\
    bucket j' kAcquireDbLock = bucket (OpJourney_ctor kRunning 100) kAcquireDbLock + (125 - 110) /\
    bucket j' kRunning = bucket (OpJourney_ctor kRunning 100) kRunning + (110 - 100) /\
    forall s, s <> kAcquireDbLock -> s <> kRunning ->
              bucket j' s = bucket (OpJourney_ctor kRunning 100) s.
Proof.
  apply (proj2 (scoped_charges (Some 1%nat) kAcquireDbLock 110 125
                  {| getClient := Some 1%nat;
                     getOpJourney := Some (OpJourney_ctor kRunning 100) |}
                  (OpJourney_ctor kRunning 100)
                  eq_refl eq_refl eq_refl ltac:(discriminate) ltac:(discriminate))).
  discriminate.
Defined.

(** X15. The destructor goes through the pointer of [Observer::get] without
    a test: for a journey it can finalize, it dereferences null when the
    service context has no observer, as when tracking was off at start-up;
    with the observer that start-up registers when tracking is on, it
    returns and that observer has counted one operation. *)
Theorem OpJourney_dtor_observer (nowEnter nowAppend : Nanoseconds) (j : OpJourney) :
  wellSized j -> j.(_current).(stage) <> kDestroyed ->
  OpJourney_dtor nowEnter nowAppend j None = Abort NullPointer /\
  OpJourney_dtor nowEnter nowAppend j (registerOpJourneyObserver false)
    = Abort NullPointer /\
  exists jd o' bob,
    OpJourney_dtor nowEnter nowAppend j (registerOpJourneyObserver true)
      = Ok (jd, o', bob) /\
    load o'.(_totalOps) = 1.
Proof.
  intros Hsz Hlive.
  destruct (enterStage_live j kDestroyed nowEnter Hsz Hlive) as [jd Hd].
  assert (Hnull : OpJourney_dtor nowEnter nowAppend j None = Abort NullPointer).
  { unfold OpJourney_dtor. now rewrite Hd. }
  split; [exact Hnull|]. split; [exact Hnull|].
  pose proof (enterStage_wellSized j jd kDestroyed nowEnter Hsz Hd) as Hszd.
  pose proof (enterStage_stage _ _ _ _ Hd) as Hfin.
  destruct (capture_spec jd Observer_ctor (conj Hfin Hszd) Observer_ctor_wellFormed)
    as (o' & Hcap & _ & Htot & _).
  destruct (OpJourney_append_other nowAppend jd [] Hszd) as (bob & Happ & _).
  exists jd, o', bob. change (registerOpJourneyObserver true) with (Some Observer_ctor).
  unfold OpJourney_dtor. rewrite Hd, bind_Ok. simpl deref. rewrite bind_Ok, Hcap, bind_Ok, Happ, bind_Ok.
  split; [reflexivity|]. unfold load. rewrite Htot. reflexivity.
Qed.

Lemma OpJourney_dtor_observer_witness :
  OpJourney_dtor 130 140 (OpJourney_ctor kRunning 100) None = Abort NullPointer.
Proof.
  apply (proj1 (OpJourney_dtor_observer 130 140 (OpJourney_ctor kRunning 100)
                  eq_refl ltac:(discriminate))).
Defined.

(** ** Further properties of the clock *)

(** X16. On Linux a failed [clock_gettime] is fatal, and a successful one
    is turned into nanoseconds in a way that keeps the order of the clock:
    of two normalized [timespec]s the earlier gives the smaller reading,
    and equal readings come from equal [timespec]s.  Elsewhere the reading
    is always zero. *)
Theorem getElapsedTime_order (t1 t2 : timespec) :
  normalized t1 -> normalized t2 ->
  exists r1 r2,
    getElapsedTime true 0 t1 = Reading r1 /\
    getElapsedTime true 0 t2 = Reading r2 /\
    (r1 <= r2 <-> notAfter t1 t2) /\
    (r1 = r2 -> t1 = t2) /\
    (forall ret, ret <> 0 -> getElapsedTime true ret t1 = FatalLog 7777701) /\
    (forall ret, getElapsedTime false ret t1 = Reading 0).
Proof.
  intros H1 H2. unfold normalized in *.
  exists (Seconds t1.(tv_sec) + t1.(tv_nsec)), (Seconds t2.(tv_sec) + t2.(tv_nsec)).
  unfold getElapsedTime, notAfter, Seconds.
  rewrite decide_False by (intros H; now apply H).
  split; [reflexivity|]. split; [reflexivity|]. split; [lia|]. split.
  - intros Heq. destruct t1 as [s1 n1], t2 as [s2 n2]. simpl in *.
    assert (s1 = s2) by lia. assert (n1 = n2) by lia. congruence.
  - split; [|reflexivity]. intros ret Hret. now rewrite decide_True.
Qed.

Lemma getElapsedTime_order_witness :
  exists r1 r2,
    getElapsedTime true 0 (mkTimespec 5 999999999) = Reading r1 /\
    getElapsedTime true 0 (mkTimespec 6 0) = Reading r2 /\
    (r1 <= r2 <-> notAfter (mkTimespec 5 999999999) (mkTimespec 6 0)) /\
    (r1 = r2 -> mkTimespec 5 999999999 = mkTimespec 6 0) /\
    (forall ret, ret <> 0 ->
       getElapsedTime true ret (mkTimespec 5 999999999) = FatalLog 7777701) /\
    (forall ret, getElapsedTime false ret (mkTimespec 5 999999999) = Reading 0).
Proof.
  apply (getElapsedTime_order (mkTimespec 5 999999999) (mkTimespec 6 0)).
  - unfold normalized. simpl. lia.
  - unfold normalized. simpl. lia.
Defined.

Lemma nonNegative_sum_zero (l : list Z) :
  Forall (fun d => 0 <= d) l -> sumZ l = 0 -> l = replicate (length l) 0.
Proof.
  induction 1 as [|d l Hd Hl IH]; intros Hsum; [reflexivity|].
  simpl in Hsum.
  assert (0 <= sumZ l) by (clear -Hl; induction Hl; simpl; lia).
  assert (d = 0) as -> by lia. simpl. f_equal. apply IH. lia.
Qed.

(** X17. Where the clock always reads the same, as it does off Linux, an
    operation has no measured time: after any run of calls every bucket is
    zero. *)
Theorem still_clock_profile (initial : Stage) (created : Nanoseconds)
    (calls : list (Stage * Nanoseconds)) (j : OpJourney) :
  Forall (fun c => snd c = created) calls ->
  enterStages calls (OpJourney_ctor initial created) = Ok j ->
  j.(_profile) = replicate (ordinal kDestroyed) 0 /\
  j.(_current).(entered) = created.
Proof.
  intros Hstill Hrun.
  assert (Hclock : clockOrdered created calls /\ lastReading created calls = created).
  { clear Hrun. induction Hstill as [|[s now] calls Hc Hrest IH]; [now split|].
    simpl in Hc. subst now. destruct IH as (IH1 & IH2).
    split; [simpl; split; [lia | exact IH1]|exact IH2]. }
  destruct Hclock as (Hclock & Hlast).
  destruct (enterStages_nonNegative calls created (OpJourney_ctor initial created) j)
    as (Hnn & Hle); try assumption.
  - unfold nonNegative. cbn [OpJourney_ctor _profile]. apply Forall_replicate. lia.
  - simpl. lia.
  - destruct (enterStages_keep_accounted created calls _ j
                (OpJourney_ctor_accounted initial created) Hrun) as (_ & Hsz & Hsum).
    assert (0 <= sumZ j.(_profile)).
    { clear -Hnn. unfold nonNegative in Hnn. induction Hnn; simpl; lia. }
    assert (Hent : j.(_current).(entered) = created) by lia.
    split; [|exact Hent].
    rewrite <- Hsz. apply nonNegative_sum_zero; [exact Hnn | lia].
Qed.

Lemma still_clock_profile_witness :
  {| _created := 0; _current := {| stage := kDestroyed; entered := 0 |};
     _profile := replicate 10 0 |}.(_profile) = replicate (ordinal kDestroyed) 0 /\
  0 = 0.
Proof.
  apply (still_clock_profile kRunning 0
           [(kNetworkSync, 0); (kReleased, 0); (kDestroyed, 0)]
           {| _created := 0; _current := {| stage := kDestroyed; entered := 0 |};
              _profile := replicate 10 0 |}).
  - repeat constructor.
  - reflexivity.
Defined.

(** ** Further properties of the two loops of [capture] *)

(** X18. With other threads writing the word at any point of the loop, the
    loop on [_max] ends after at most one round per round of interference
    and leaves the word at [durNanos] or above; when the other writers only
    ever raise the word, the loop does not lower it either. *)
Theorem updateMaxAmid_spec (others : list ((Z -> Z) * (Z -> Z))) (durNanos w : Z) :
  exists w',
    updateMaxAmid others durNanos w = Ok w' /\
    durNanos <= w' /\
    (Forall raising others -> w <= w') /\
    (Forall (fun round => forall x, fst round x = x /\ snd round x = x) others ->
     updateMaxAmid others durNanos w = updateMax durNanos w).
Proof.
  revert w. induction others as [|[before between] rest IH]; intros w.
  - exists (Z.max w durNanos). simpl. rewrite updateMax_single.
    split; [reflexivity|]. split; [lia|]. split; [lia | reflexivity].
  - cbn [updateMaxAmid]. unfold load, compareAndSwap.
    destruct (decide (durNanos > before w)) as [Hgt|Hle].
    + destruct (decide (between (before w) = before w)) as [Heq|Hne].
      * exists durNanos. split; [reflexivity|]. split; [lia|]. split.
        -- intros Hall. inversion Hall as [|x xs (Hb & _) _]; subst. simpl in Hb.
           specialize (Hb w). lia.
        -- intros Hid. inversion Hid as [|x xs Hx Hrest]; subst. simpl in Hx.
           destruct (Hx w) as (Hbw & _). rewrite Hbw in *.
           rewrite updateMax_single. f_equal. lia.
      * destruct (IH (between (before w))) as (w' & Hrun & Hd & Hraise & _).
        exists w'. split; [exact Hrun|]. split; [exact Hd|]. split.
        -- intros Hall. inversion Hall as [|x xs (Hb & Hbt) Hrest]; subst. simpl in *.
           specialize (Hb w). specialize (Hbt (before w)). specialize (Hraise Hrest). lia.
        -- intros Hid. inversion Hid as [|x xs Hx Hrest]; subst. simpl in Hx.
           destruct (Hx (before w)) as (_ & Hbt). contradiction.
    + exists (before w). split; [reflexivity|]. split; [lia|]. split.
      * intros Hall. inversion Hall as [|x xs (Hb & _) _]; subst. simpl in Hb.
        apply Hb.
      * intros Hid. inversion Hid as [|x xs Hx Hrest]; subst. simpl in Hx.
        destruct (Hx w) as (Hbw & _). rewrite Hbw in *.
        rewrite updateMax_single. f_equal. lia.
Qed.

Lemma updateMaxAmid_spec_witness :
  exists w', updateMaxAmid [(fun x => x, fun x => Z.max x 5); (fun x => x, fun x => x)] 7 3
             = Ok w' /\ 3 <= w'.
Proof.
  destruct (updateMaxAmid_spec
              [(fun x => x, fun x => Z.max x 5); (fun x => x, fun x => x)] 7 3)
    as (w' & Hrun & _ & Hraise & _).
  exists w'. split; [exact Hrun|]. apply Hraise.
  repeat constructor; simpl; lia.
Defined.

(** X19. The same for the loop on [_min]: it ends after at most one round
    per round of interference and leaves the word at [durNanos] or below;
    when the other writers only ever lower the word, the loop does not
    raise it either. *)
Theorem updateMinAmid_spec (others : list ((Z -> Z) * (Z -> Z))) (durNanos w : Z) :
  exists w',
    updateMinAmid others durNanos w = Ok w' /\
    w' <= durNanos /\
    (Forall lowering others -> w' <= w) /\
    (Forall (fun round => forall x, fst round x = x /\ snd round x = x) others ->
     updateMinAmid others durNanos w = updateMin durNanos w).
Proof.
  revert w. induction others as [|[before between] rest IH]; intros w.
  - exists (Z.min w durNanos). simpl. rewrite updateMin_single.
    split; [reflexivity|]. split; [lia|]. split; [lia | reflexivity].
  - cbn [updateMinAmid]. unfold load, compareAndSwap.
    destruct (decide (durNanos < before w)) as [Hlt|Hge].
    + destruct (decide (between (before w) = before w)) as [Heq|Hne].
      * exists durNanos. split; [reflexivity|]. split; [lia|]. split.
        -- intros Hall. inversion Hall as [|x xs (Hb & _) _]; subst. simpl in Hb.
           specialize (Hb w). lia.
        -- intros Hid. inversion Hid as [|x xs Hx Hrest]; subst. simpl in Hx.
           destruct (Hx w) as (Hbw & _). rewrite Hbw in *.
           rewrite updateMin_single. f_equal. lia.
      * destruct (IH (between (before w))) as (w' & Hrun & Hd & Hlower & _).
        exists w'. split; [exact Hrun|]. split; [exact Hd|]. split.
        -- intros Hall. inversion Hall as [|x xs (Hb & Hbt) Hrest]; subst. simpl in *.
           specialize (Hb w). specialize (Hbt (before w)). specialize (Hlower Hrest). lia.
        -- intros Hid. inversion Hid as [|x xs Hx Hrest]; subst. simpl in Hx.
           destruct (Hx (before w)) as (_ & Hbt). contradiction.
    + exists (before w). split; [reflexivity|]. split; [lia|]. split.
      * intros Hall. inversion Hall as [|x xs (Hb & _) _]; subst. simpl in Hb.
        apply Hb.
      * intros Hid. inversion Hid as [|x xs Hx Hrest]; subst. simpl in Hx.
        destruct (Hx w) as (Hbw & _). rewrite Hbw in *.
        rewrite updateMin_single. f_equal. lia.
Qed.

Lemma updateMinAmid_spec_witness :
  exists w', updateMinAmid [(fun x => x, fun x => Z.min x 5); (fun x => x, fun x => x)] 3 7
             = Ok w' /\ w' <= 7.
Proof.
  destruct (updateMinAmid_spec
              [(fun x => x, fun x => Z.min x 5); (fun x => x, fun x => x)] 3 7)
    as (w' & Hrun & _ & Hlower & _).
  exists w'. split; [exact Hrun|]. apply Hlower.
  repeat constructor; simpl; lia.
Defined.
